(** * OpenCOLE: prompt and model set-up helpers

    A shallow embedding of [src/opencole/inference/langchain_helper.py]
    and the properties its specification states about it.

    The Python module is glue code over three libraries (the [random]
    module, [pathlib] and langchain).  The embedding keeps the control
    flow of every function of the module and threads the effects the
    functions have through an explicit [world]: the state of the random
    generator, the directory tree with the current directory, the
    process environment, the room left on the interpreter's stack and a
    trace of the calls into the embedding back end.  Exceptions are
    values of type [exn]; a computation that raises keeps the world it
    had reached, as a Python exception does. *)

From Stdlib Require Import ZArith String Ascii List Lia.
From stdpp Require Import base option list gmap strings.

Local Open Scope Z_scope.

(** ** Exceptions and results *)

Inductive exn : Type :=
  | AssertionError (msg : option string)
  | NotImplementedError (msg : option string)
  | ValueError (msg : string)
  | IndexError
  | FileExistsError
  | FileNotFoundError
  | NotADirectoryError
  | OSError (code : Z)
  | RecursionError.

Inductive result (A : Type) : Type :=
  | Ok (a : A)
  | Raise (e : exn).

Arguments Ok {A} a.
Arguments Raise {A} e.

Definition is_ok {A} (r : result A) : bool :=
  match r with Ok _ => true | Raise _ => false end.

Definition result_map {A B} (f : A -> B) (r : result A) : result B :=
  match r with Ok a => Ok (f a) | Raise e => Raise e end.

(** ** The random generator

    [random.sample] draws its indices from [Random._randbelow], which
    returns an integer in [0, n) and advances the generator.  The
    generator itself (a Mersenne twister) is kept abstract: the
    development holds for every generator whose [randbelow] stays below
    its bound and is fair, in that from every state each value below
    the bound comes up within finitely many draws, [patience] at most.
    Fairness is what makes the loop of [random.sample] that draws again
    until it finds a fresh position come to an end. *)

Class RandomGen : Type := {
  rng_state : Type;
  randbelow : rng_state -> nat -> nat * rng_state;
  patience : rng_state -> nat -> nat;
  randbelow_lt : forall s n, (0 < n)%nat -> (fst (randbelow s n) < n)%nat;
  randbelow_fair : forall s n j, (j < n)%nat ->
    exists i, (i < patience s n)%nat /\
      fst (randbelow (Nat.iter i (fun t => snd (randbelow t n)) s) n) = j
}.

(** A generator that counts, used to run the model on concrete inputs:
    its draws below [n] go round the values [0 .. n - 1], each value
    coming up twice in a row. *)
Definition counter_randbelow (s : nat) (n : nat) : nat * nat :=
  (((s / 2) mod n)%nat, S s).

Lemma counter_randbelow_lt (s : nat) (n : nat) :
  (0 < n)%nat -> (fst (counter_randbelow s n) < n)%nat.
Proof. intros Hn. simpl. apply Nat.mod_upper_bound. lia. Qed.

Lemma counter_randbelow_fair (s : nat) (n j : nat) :
  (j < n)%nat ->
  exists i, (i < 2 * n)%nat /\
    fst (counter_randbelow
           (Nat.iter i (fun t => snd (counter_randbelow t n)) s) n) = j.
Proof.
  intros Hj. unfold counter_randbelow. cbn [fst snd].
  assert (Hiter : forall i, Nat.iter i (fun t => S t) s = (i + s)%nat).
  { induction i as [|i IH]; [done|]. simpl. by rewrite IH. }
  set (m0 := ((s + 1) / 2)%nat).
  assert (Hm0 : (s <= 2 * m0 <= s + 1)%nat).
  { unfold m0. pose proof (Nat.div_mod_eq (s + 1) 2).
    pose proof (Nat.mod_upper_bound (s + 1) 2 ltac:(lia)). lia. }
  pose proof (Nat.mod_upper_bound m0 n ltac:(lia)) as Ha.
  pose proof (Nat.div_mod_eq m0 n) as Hs.
  assert (Hhalf : forall m, (s <= 2 * m)%nat -> ((2 * m - s + s) / 2 = m)%nat).
  { intros m Hm. replace (2 * m - s + s)%nat with (m * 2)%nat by lia.
    apply Nat.div_mul. lia. }
  destruct (decide (m0 mod n <= j)%nat) as [Hle|Hgt].
  - exists (2 * (m0 + (j - m0 mod n)) - s)%nat. split; [lia|].
    rewrite Hiter, Hhalf by lia.
    symmetry. apply (Nat.mod_unique _ _ (m0 / n)%nat); lia.
  - exists (2 * (m0 + (j + n - m0 mod n)) - s)%nat. split; [lia|].
    rewrite Hiter, Hhalf by lia.
    symmetry. apply (Nat.mod_unique _ _ (S (m0 / n))%nat); lia.
Qed.

Definition counter : RandomGen :=
  {| rng_state := nat;
     randbelow := counter_randbelow;
     patience := fun _ n => (2 * n)%nat;
     randbelow_lt := counter_randbelow_lt;
     randbelow_fair := counter_randbelow_fair |}.

(** ** The file system seen by [pathlib]

    A path is the tuple [PurePath.parts], kept with its last component
    first, so that the parent of a path is its tail; the empty tuple is
    the path ["."], and a root (["/"] or ["//"]) is the last element of
    an absolute path.  A name is the byte string [os.fsencode] gives.

    A location of the tree is the list of the names from the root down
    to an entry, again with the last name first; the root is the empty
    list.  The tree maps the locations that exist to the kind of their
    entry.  It has no links, the process may search and write every
    directory, and the device has room. *)

Inductive node : Type := File | Dir.

#[global] Instance node_eq_dec : EqDecision node.
Proof. solve_decision. Defined.

Abbreviation path := (list string).

Definition is_anchor (p : path) : bool :=
  match p with
  | [] => true
  | [c] => bool_decide (c = "/"%string) || bool_decide (c = "//"%string)
  | _ => false
  end.

(** [PurePath.parent] *)
Definition parent (p : path) : path :=
  if is_anchor p then p else tail p.

(** [str.split("/")] *)
Fixpoint split_sep (s : string) : list string :=
  match s with
  | EmptyString => [EmptyString]
  | String c s' =>
      if Ascii.eqb c "/"%char then EmptyString :: split_sep s'
      else match split_sep s' with
           | [] => [String c EmptyString]
           | h :: t => String c h :: t
           end
  end.

(** The number of leading separators, [len(part) - len(part.lstrip("/"))] *)
Fixpoint leading_seps (s : string) : nat :=
  match s with
  | String c s' => if Ascii.eqb c "/"%char then S (leading_seps s') else 0%nat
  | EmptyString => 0%nat
  end.

(** [Path(s)] for the POSIX flavour: the root is ["//"] when the string
    starts with exactly two separators, ["/"] when it starts with one or
    with more than two; empty components and ["."] are dropped, [".."]
    is kept. *)
Definition Path (s : string) : path :=
  let root :=
    match leading_seps s with
    | 0%nat => []
    | 2%nat => ["//"%string]
    | _ => ["/"%string]
    end in
  let names :=
    filter (fun x => x <> EmptyString /\ x <> "."%string) (split_sep s) in
  rev (root ++ names).

(** [str(path)], the string handed to the operating system *)
Fixpoint path_string (p : path) : string :=
  match p with
  | [] => "."
  | c :: up =>
      match up with
      | [] => c
      | a :: _ =>
          if is_anchor up then a ++ c else path_string up ++ "/" ++ c
      end
  end%string.

(** The limits of Linux on the bytes of one name and of a whole path
    (the latter counts the terminating zero byte). *)
Definition NAME_MAX : nat := 255.
Definition PATH_MAX : nat := 4096.

(** The string holds a zero byte. *)
Fixpoint has_nul (s : string) : bool :=
  match s with
  | EmptyString => false
  | String c s' => Ascii.eqb c zero || has_nul s'
  end.

(** The error numbers of the system calls *)
Inductive errno : Type := ENOENT | ENOTDIR | EEXIST | ENAMETOOLONG.

(** The subclass of [OSError] Python raises for an error number; the
    code of [ENAMETOOLONG] is 36. *)
Definition OSError_of (e : errno) : exn :=
  match e with
  | ENOENT => FileNotFoundError
  | ENOTDIR => NotADirectoryError
  | EEXIST => FileExistsError
  | ENAMETOOLONG => OSError 36
  end.

(** [isinstance(e, OSError)] *)
Definition is_OSError (e : exn) : bool :=
  match e with
  | FileExistsError | FileNotFoundError | NotADirectoryError | OSError _ => true
  | _ => false
  end.

(** The entry at a location; the root is a directory. *)
Definition stat (fs : gmap path node) (p : path) : option node :=
  match p with
  | [] => Some Dir
  | _ => fs !! p
  end.

(** One step of the walk of the kernel: the entry named [c] in the
    directory at [d].  The name [".."] leads to the directory above,
    which for the root is the root. *)
Definition lookup_in (fs : gmap path node) (d : path) (c : string)
    : errno + path * node :=
  if bool_decide (c = ".."%string) then inr (tail d, Dir)
  else if (NAME_MAX <? String.length c)%nat then inl ENAMETOOLONG
  else match stat fs (c :: d) with
       | Some n => inr (c :: d, n)
       | None => inl ENOENT
       end.

(** The walk of the kernel along a path, from the root for an absolute
    path and from the current directory [cwd] otherwise: the location
    and the kind of the entry the path leads to, or the error of the
    first step that fails.  A step is taken from a directory only. *)
Fixpoint resolve (fs : gmap path node) (cwd : path) (p : path)
    : errno + path * node :=
  match p with
  | [] => inr (cwd, Dir)
  | c :: up =>
      if is_anchor p then inr ([], Dir)
      else match resolve fs cwd up with
           | inr (d, Dir) => lookup_in fs d c
           | inr (_, File) => inl ENOTDIR
           | inl e => inl e
           end
  end.

(** ** Events of the embedding back end *)

Inductive event : Type :=
  | EvLog (template : string) (args : list string)
  | EvHuggingFaceEmbeddings
  | EvEmbedDocuments (count : nat).

(** ** The world and the monad of effects *)

Section Effects.
Context {RG : RandomGen}.

(** [w_cwd] is the location of the current directory; [w_frames] is the
    number of nested calls of [Path.mkdir] the recursion limit of the
    interpreter leaves room for. *)
Record world : Type := World {
  w_rng : rng_state;
  w_fs : gmap path node;
  w_env : gmap string string;
  w_trace : list event;
  w_cwd : path;
  w_frames : nat
}.

Definition M (A : Type) : Type := world -> result A * world.

Definition ret {A} (a : A) : M A := fun w => (Ok a, w).

Definition raise {A} (e : exn) : M A := fun w => (Raise e, w).

Definition bind {A B} (m : M A) (f : A -> M B) : M B :=
  fun w =>
    match m w with
    | (Ok a, w') => f a w'
    | (Raise e, w') => (Raise e, w')
    end.

#[global] Instance M_ret : MRet M := @ret.
#[global] Instance M_bind : MBind M := fun A B f m => bind m f.

Definition with_rng (w : world) (s : rng_state) : world :=
  World s (w_fs w) (w_env w) (w_trace w) (w_cwd w) (w_frames w).

Definition with_fs (w : world) (fs : gmap path node) : world :=
  World (w_rng w) fs (w_env w) (w_trace w) (w_cwd w) (w_frames w).

Definition with_trace (w : world) (t : list event) : world :=
  World (w_rng w) (w_fs w) (w_env w) t (w_cwd w) (w_frames w).

Definition emit (e : event) : M unit :=
  fun w => (Ok tt, with_trace w (w_trace w ++ [e])).

(** The room the stack has for nested calls *)
Definition stack_room : M nat :=
  fun w => (Ok (w_frames w), w).

(** ** [random.sample]

    [Random.sample] belongs to the Python standard library, not to the
    repository:
    [[
        if not 0 <= k <= n:
            raise ValueError("Sample larger than population or is negative")
        result = [None] * k
        setsize = 21        # size of a small set minus size of an empty list
        if k > 5:
            setsize += 4 ** _ceil(_log(k * 3, 4))  # table size for big sets
        if n <= setsize:
            pool = list(population)
            for i in range(k):
                j = randbelow(n - i)
                result[i] = pool[j]
                pool[j] = pool[n - i - 1]
        else:
            selected = set()
            selected_add = selected.add
            for i in range(k):
                j = randbelow(n)
                while j in selected:
                    j = randbelow(n)
                selected_add(j)
                result[i] = population[j]
        return result
    ]]
    An index out of the list would raise [IndexError]; neither loop ever
    does ([sample_loop_spec], [sample_set_loop_spec]). *)

(** The least [m] with [x <= 4 ^ m], for [x > 1] ([ceil_log4_spec]).
    The library computes it in floating point, as
    [ceil(log(x, 4))]; the two agree as long as [x] is below [3 * 2 ^ 48],
    and what is stated below about the choice between the two loops is
    stated for [k] below [2 ^ 48]. *)
Definition ceil_log4 (x : Z) : Z := (Z.log2_up x + 1) / 2.

Definition setsize (k : Z) : Z :=
  if 5 <? k then 21 + 4 ^ ceil_log4 (k * 3) else 21.

(** The pool loop, from round [i] on, for [fuel] rounds *)
Fixpoint sample_loop {A} (n : nat) (fuel i : nat) (pool : list A)
    (s : rng_state) : result (list A) * rng_state :=
  match fuel with
  | O => (Ok [], s)
  | S fuel' =>
      let (j, s') := randbelow s (n - i)%nat in
      match pool !! j, pool !! (n - i - 1)%nat with
      | Some x, Some y =>
          match sample_loop n fuel' (S i) (<[j := y]> pool) s' with
          | (Ok r, s'') => (Ok (x :: r), s'')
          | (Raise e, s'') => (Raise e, s'')
          end
      | _, _ => (Raise IndexError, s')
      end
  end.

(** [while j in selected: j = randbelow(n)].  The fuel bounds the
    number of tests; with the patience of the generator and one more
    the loop ends by itself, on a position that is not in [selected]
    ([redraw_spec]). *)
Fixpoint redraw (n fuel : nat) (selected : gset nat) (j : nat)
    (s : rng_state) : nat * rng_state :=
  match fuel with
  | O => (j, s)
  | S fuel' =>
      if decide (j ∈ selected) then
        let (j', s') := randbelow s n in redraw n fuel' selected j' s'
      else (j, s)
  end.

(** The loop over the set of selected positions, for [fuel] rounds *)
Fixpoint sample_set_loop {A} (n : nat) (fuel : nat) (population : list A)
    (selected : gset nat) (s : rng_state) : result (list A) * rng_state :=
  match fuel with
  | O => (Ok [], s)
  | S fuel' =>
      let (j0, s0) := randbelow s n in
      let (j, s1) := redraw n (S (patience s0 n)) selected j0 s0 in
      match population !! j with
      | Some x =>
          match sample_set_loop n fuel' population ({[j]} ∪ selected) s1 with
          | (Ok r, s2) => (Ok (x :: r), s2)
          | (Raise e, s2) => (Raise e, s2)
          end
      | None => (Raise IndexError, s1)
      end
  end.

Definition random_sample {A} (population : list A) (k : Z) : M (list A) :=
  fun w =>
    let n := length population in
    if negb ((0 <=? k) && (k <=? Z.of_nat n)) then
      (Raise (ValueError "Sample larger than population or is negative"), w)
    else
      let (r, s') :=
        if Z.of_nat n <=? setsize k then
          sample_loop n (Z.to_nat k) 0 population (w_rng w)
        else
          sample_set_loop n (Z.to_nat k) population ∅ (w_rng w) in
      (r, with_rng w s').

(** The values [randbelow] returns when it is called with the bounds of
    a list, one after the other, and the state it is left in. *)
Fixpoint draw_seq (bounds : list nat) (s : rng_state) : list nat * rng_state :=
  match bounds with
  | [] => ([], s)
  | b :: bounds' =>
      let (j, s1) := randbelow s b in
      let (js, s2) := draw_seq bounds' s1 in
      (j :: js, s2)
  end.

End Effects.

(** ** [pathlib] and [os] on the modelled tree *)

Section Pathlib.
Context {RG : RandomGen}.

(** [os.stat]: the string must hold no zero byte (Python checks it) and
    be shorter than [PATH_MAX]; then the kernel walks the path. *)
Definition os_stat (p : path) : M (path * node) :=
  fun w =>
    if existsb has_nul p then (Raise (ValueError "embedded null byte"), w)
    else if (PATH_MAX <=? String.length (path_string p))%nat then
      (Raise (OSError 36), w)
    else match resolve (w_fs w) (w_cwd w) p with
         | inr r => (Ok r, w)
         | inl e => (Raise (OSError_of e), w)
         end.

(** [pathlib._ignore_error]: the error numbers [ENOENT] and [ENOTDIR]
    (and two that do not occur here) *)
Definition ignore_error (e : exn) : bool :=
  match e with
  | FileNotFoundError | NotADirectoryError => true
  | _ => false
  end.

(** The two handlers [Path.exists] and [Path.is_dir] share:
    [[
        except OSError as e:
            if not _ignore_error(e):
                raise
            return False
        except ValueError:
            return False
    ]] *)
Definition stat_failed (e : exn) : M bool :=
  if is_OSError e then
    if negb (ignore_error e) then raise e else mret false
  else match e with
       | ValueError _ => mret false
       | _ => raise e
       end.

(** [Path.exists] *)
Definition path_exists (p : path) : M bool :=
  fun w =>
    match os_stat p w with
    | (Ok _, w') => (Ok true, w')
    | (Raise e, w') => stat_failed e w'
    end.

(** [Path.is_dir] *)
Definition path_is_dir (p : path) : M bool :=
  fun w =>
    match os_stat p w with
    | (Ok (_, n), w') => (Ok (bool_decide (n = Dir)), w')
    | (Raise e, w') => stat_failed e w'
    end.

(** [os.mkdir]: after the same two checks on the string, the kernel
    walks to the directory the new entry is to lie in; the last name
    must not be [".."] (nor ["."], which stands for the empty path, nor
    a root), must not be too long and must be new. *)
Definition os_mkdir (p : path) : M unit :=
  fun w =>
    if existsb has_nul p then (Raise (ValueError "embedded null byte"), w)
    else if (PATH_MAX <=? String.length (path_string p))%nat then
      (Raise (OSError 36), w)
    else
      match p with
      | [] => (Raise FileExistsError, w)
      | c :: up =>
          if is_anchor p then (Raise FileExistsError, w)
          else
            match resolve (w_fs w) (w_cwd w) up with
            | inl e => (Raise (OSError_of e), w)
            | inr (_, File) => (Raise NotADirectoryError, w)
            | inr (d, Dir) =>
                if bool_decide (c = ".."%string) then (Raise FileExistsError, w)
                else if (NAME_MAX <? String.length c)%nat then
                  (Raise (OSError 36), w)
                else
                  match stat (w_fs w) (c :: d) with
                  | Some _ => (Raise FileExistsError, w)
                  | None => (Ok tt, with_fs w (<[c :: d := Dir]> (w_fs w)))
                  end
            end
      end.

(** The clause [except OSError] of [Path.mkdir]:
    [[
        if not exist_ok or not self.is_dir():
            raise
    ]] *)
Definition mkdir_oserror (exist_ok : bool) (p : path) (e : exn) : M unit :=
  if negb exist_ok then raise e
  else
    d ← path_is_dir p;
    if negb d then raise e else mret tt.

(** [Path.mkdir(parents=False, exist_ok=exist_ok)], called with room
    for [frames] nested calls *)
Definition mkdir_single (frames : nat) (exist_ok : bool) (p : path) : M unit :=
  fun w =>
    match frames with
    | O => (Raise RecursionError, w)
    | S _ =>
        match os_mkdir p w with
        | (Ok _, w') => (Ok tt, w')
        | (Raise FileNotFoundError, w') => (Raise FileNotFoundError, w')
        | (Raise e, w') =>
            if is_OSError e then mkdir_oserror exist_ok p e w'
            else (Raise e, w')
        end
    end.

(** [Path.mkdir(parents=parents, exist_ok=exist_ok)], called with room
    for [frames] nested calls:
    [[
        try:
            os.mkdir(self, mode)
        except FileNotFoundError:
            if not parents or self.parent == self:
                raise
            self.parent.mkdir(parents=True, exist_ok=True)
            self.mkdir(mode, parents=False, exist_ok=exist_ok)
        except OSError:
            if not exist_ok or not self.is_dir():
                raise
    ]]
    A call for which the stack has no room raises [RecursionError].  The
    recursion is on the path: the parent of a path that is not an
    anchor is its tail. *)
Fixpoint Path_mkdir (frames : nat) (parents exist_ok : bool) (p : path)
    {struct p} : M unit :=
  fun w =>
    match frames with
    | O => (Raise RecursionError, w)
    | S frames' =>
        match os_mkdir p w with
        | (Ok _, w') => (Ok tt, w')
        | (Raise FileNotFoundError, w') =>
            match p with
            | [] => (Raise FileNotFoundError, w')
            | _ :: up =>
                if negb parents || is_anchor p then (Raise FileNotFoundError, w')
                else
                  match Path_mkdir frames' true true up w' with
                  | (Ok _, w'') => mkdir_single frames' exist_ok p w''
                  | (Raise e, w'') => (Raise e, w'')
                  end
            end
        | (Raise e, w') =>
            if is_OSError e then mkdir_oserror exist_ok p e w'
            else (Raise e, w')
        end
    end.

End Pathlib.

(** ** The embedding provider *)

Inductive Embeddings : Type :=
  | HuggingFaceEmbeddings
  | CacheBackedEmbeddings (underlying : Embeddings) (store : string)
      (namespace : string).

Section Embedding.
Context {RG : RandomGen}.

(** [initialize_embeddings].  Building [HuggingFaceEmbeddings()] loads
    the embedding model, which the trace records and which is taken to
    succeed; [LocalFileStore] and
    [CacheBackedEmbeddings.from_bytes_store] only build objects. *)
Definition initialize_embeddings (embeddings_cache_name : option string)
    : M Embeddings :=
  emit EvHuggingFaceEmbeddings;;
  let embedder := HuggingFaceEmbeddings in
  let namespace := "hfemb_default"%string in
  match embeddings_cache_name with
  | Some name =>
      emit (EvLog "Use {embeddings_cache_name=} for embeddings cache." [name]);;
      let path := Path name in
      ex ← path_exists path;
      (if negb ex then
         let parent_path := parent path in
         pex ← path_exists parent_path;
         if negb pex then
           frames ← stack_room;
           Path_mkdir frames true true parent_path
         else mret tt
       else mret tt);;
      let store := name in
      let cached_embedder := CacheBackedEmbeddings embedder store namespace in
      mret cached_embedder
  | None => mret embedder
  end.

End Embedding.
(** ** The model factory *)

Inductive BaseLanguageModel : Type :=
  | HuggingFacePipeline (model_id task : string) (max_new_tokens : Z)
  | HuggingFaceHub (repo_id : string) (model_kwargs : list (string * Z))
  | AzureChatOpenAI (deployment_name model_name : string)
      (openai_api_version : option string).

Section Model.
Context {RG : RandomGen}.

(** [os.getenv] *)
Definition getenv (name : string) : M (option string) :=
  fun w => (Ok (w_env w !! name), w).

(** [setup_model].  The constructors of the three back ends are taken
    to succeed; what they download or connect to is outside the
    module. *)
Definition setup_model (model_id repo_id azure_openai_model_name : option string)
    : M BaseLanguageModel :=
  match model_id with
  | Some m => mret (HuggingFacePipeline m "text-generation" 64)
  | None =>
      match repo_id with
      | Some r =>
          mret (HuggingFaceHub r
                  [("temperature"%string, 0); ("max_length"%string, 64)])
      | None =>
          match azure_openai_model_name with
          | Some a =>
              v ← getenv "AZURE_OPENAI_API_VERSION";
              mret (AzureChatOpenAI a a v)
          | None =>
              raise (NotImplementedError (Some "No model is specified."%string))
          end
      end
  end.

End Model.

(** ** Examples, selectors and prompt templates *)

Definition SUFFIX : string :=
  "Make a detailed plan to for a graphic design for the following request: '{intention}'.".

Definition CHAT_SYSTEM_MESSAGE : string :=
  "You are an helpful AI Assistant. {format_instructions}".

Record Example : Type := {
  intention : string;
  detail : option string;
  id : option string
}.

(** A Python dict with string keys, in insertion order. *)
Abbreviation dict V := (list (string * V)).

Fixpoint dict_set {V} (d : dict V) (key : string) (v : V) : dict V :=
  match d with
  | [] => [(key, v)]
  | (key', v') :: d' =>
      if bool_decide (key' = key) then (key, v) :: d'
      else (key', v') :: dict_set d' key v
  end.

(** [dict.update] *)
Definition dict_update {V} (d new : dict V) : dict V :=
  fold_left (fun acc kv => dict_set acc (fst kv) (snd kv)) new d.

Definition dict_get {V} (d : dict V) (key : string) : option V :=
  snd <$> find (fun kv => bool_decide (fst kv = key)) d.

(** The record [{key: getattr(e, key) for key in ["intention", "detail"]}] *)
Definition example_dict (e : Example) : dict (option string) :=
  [("intention"%string, Some (intention e)); ("detail"%string, detail e)].

(** The state of a [RandomExampleSelector] *)
Record RandomExampleSelector (A : Type) : Type := {
  examples : list A;
  k : Z
}.

Arguments examples {A} _.
Arguments k {A} _.

Inductive example_selector (A : Type) : Type :=
  | Random (sel : RandomExampleSelector A)
  | SemanticSimilarity (indexed : list A) (embeddings : Embeddings)
      (k : Z) (input_keys : list string).

Arguments Random {A} sel.
Arguments SemanticSimilarity {A} indexed embeddings k input_keys.

(** The values of the keyword dictionary handed to the few-shot block;
    [P] is the type of prompt templates. *)
Inductive kwarg (P A : Type) : Type :=
  | KwExamplePrompt (prompt : P)
  | KwExampleSelector (selector : example_selector A)
  | KwExamples (static : list A).

Arguments KwExamplePrompt {P A} prompt.
Arguments KwExampleSelector {P A} selector.
Arguments KwExamples {P A} static.

Record ChatPromptTemplateOf (T : Type) : Type := {
  messages : list T;
  input_variables : list string;
  partial_variables : dict string
}.

Arguments messages {T} _.
Arguments input_variables {T} _.
Arguments partial_variables {T} _.

#[warnings="-register-all"]
Inductive message_template : Type :=
  | SystemMessagePromptTemplate (template : string)
  | HumanMessagePromptTemplate (template : string)
  | AIMessagePromptTemplate (template : string)
  | FewShotChatMessagePromptTemplate
      (template_kwargs :
         dict (kwarg (ChatPromptTemplateOf message_template)
                     (dict (option string)))).

Abbreviation ChatPromptTemplate := (ChatPromptTemplateOf message_template).

Definition is_few_shot (m : message_template) : bool :=
  match m with
  | FewShotChatMessagePromptTemplate _ => true
  | _ => false
  end.

Section Selection.
Context {RG : RandomGen}.

(** [RandomExampleSelector.add_example] *)
Definition add_example {A} (self : RandomExampleSelector A) (example : A)
    : RandomExampleSelector A :=
  {| examples := examples self ++ [example]; k := k self |}.

(** [RandomExampleSelector.select_examples]; [args] and [kwargs] are
    the positional and keyword arguments of the call. *)
Definition select_examples {A Q} (self : RandomExampleSelector A)
    (args : list Q) (kwargs : dict Q) : M (list A) :=
  random_sample (examples self) (k self).

(** [SemanticSimilarityExampleSelector.from_examples] belongs to
    langchain: it has the examples embedded, which the trace records
    and which is taken to succeed, and builds the index of the vectors
    ([FAISS.from_texts], which reads the dimension off the first vector
    and so raises [IndexError] when there is none); it returns the
    selector built on the index.  The files the cache of the embedder
    writes are not part of the modelled tree. *)
Definition from_examples {A} (exs : list A) (embeddings : Embeddings)
    (k : Z) (input_keys : list string) : M (example_selector A) :=
  emit (EvEmbedDocuments (length exs));;
  match exs with
  | [] => raise IndexError
  | _ => mret (SemanticSimilarity exs embeddings k input_keys)
  end.

(** Python's [assert] with assertions enabled, the interpreter's
    default. *)
Definition assert (b : bool) (msg : option string) : M unit :=
  if b then mret tt else raise (AssertionError msg).

(** [setup_examples_or_its_selector] *)
Definition setup_examples_or_its_selector {P A} (exs : list A)
    (few_shot_by : string) (k : Z) (embeddings_cache_name : option string)
    : M (dict (kwarg P A)) :=
  let kwargs : dict (kwarg P A) := [] in
  if bool_decide (few_shot_by = "similarity"%string) then
    assert (bool_decide (embeddings_cache_name <> None))
      (Some "embeddings_cache_name is required for retrieval based on sentence similarity between the extracted embeddings."%string);;
    emit (EvLog "Initializing similarity-based example selector (start): (taking long time for the first time) ..." []);;
    embeddings ← initialize_embeddings embeddings_cache_name;
    sel ← from_examples exs embeddings k ["intention"%string];
    let kwargs := dict_set kwargs "example_selector" (KwExampleSelector sel) in
    emit (EvLog "Initializing similarity-based example selector (finished)" []);;
    mret kwargs
  else if bool_decide (few_shot_by = "random"%string) then
    let kwargs :=
      dict_set kwargs "example_selector"
        (KwExampleSelector (Random {| examples := exs; k := k |})) in
    mret kwargs
  else if bool_decide (few_shot_by = "fixed"%string) then
    sample ← random_sample exs k;
    let kwargs := dict_set kwargs "examples" (KwExamples sample) in
    mret kwargs
  else raise (NotImplementedError None).

(** [setup_prompt], with the example-selection dispatch it calls as a
    parameter. *)
Definition setup_prompt_with
    (dispatch : list (dict (option string)) -> string -> Z -> option string ->
                M (dict (kwarg ChatPromptTemplate (dict (option string)))))
    (exs : list Example) (format_instructions few_shot_by : string)
    (k : Z) (embeddings_cache_name : option string) : M ChatPromptTemplate :=
  let messages := [SystemMessagePromptTemplate CHAT_SYSTEM_MESSAGE] in
  messages ←
    (if 0 <? k then
       assert (0 <? Z.of_nat (length exs)) None;;
       let template_kwargs : dict (kwarg ChatPromptTemplate (dict (option string))) := [] in
       let template_kwargs :=
         dict_set template_kwargs "example_prompt"
           (KwExamplePrompt
              {| messages := [HumanMessagePromptTemplate SUFFIX;
                              AIMessagePromptTemplate "{detail}"];
                 input_variables := ["intention"%string; "detail"%string];
                 partial_variables := [] |}) in
       let exs := map example_dict exs in
       selected ← dispatch exs few_shot_by k embeddings_cache_name;
       let template_kwargs := dict_update template_kwargs selected in
       mret (messages ++ [FewShotChatMessagePromptTemplate template_kwargs])
     else mret messages);
  let messages := messages ++ [HumanMessagePromptTemplate SUFFIX] in
  let prompt :=
    {| messages := messages;
       input_variables := ["intention"%string];
       partial_variables :=
         [("format_instructions"%string, format_instructions)] |} in
  mret prompt.

Definition setup_prompt : list Example -> string -> string -> Z ->
    option string -> M ChatPromptTemplate :=
  setup_prompt_with setup_examples_or_its_selector.

(** The examples a few-shot block shows at one rendering, as langchain's
    [FewShotChatMessagePromptTemplate._get_examples] picks them:
    [[
        if self.examples is not None:
            return self.examples
        elif self.example_selector is not None:
            return self.example_selector.select_examples(kwargs)
        else:
            raise ValueError(...)
    ]]
    The search of the similarity selector belongs to the vector store
    and is a parameter. *)
Definition rendered_examples {P A Q}
    (similarity_search :
       list A -> Embeddings -> Z -> list string -> dict Q -> M (list A))
    (block : dict (kwarg P A)) (query : dict Q) : M (list A) :=
  match dict_get block "examples" with
  | Some (KwExamples static) => mret static
  | _ =>
      match dict_get block "example_selector" with
      | Some (KwExampleSelector (Random sel)) =>
          select_examples sel [query] []
      | Some (KwExampleSelector (SemanticSimilarity indexed embeddings k keys)) =>
          similarity_search indexed embeddings k keys query
      | _ =>
          raise (ValueError
                   "One of 'examples' and 'example_selector' should be provided")
      end
  end.

End Selection.

(** ** What the properties speak about *)

(** *** Sampling *)

(** The pool loop as a function of the draws: round [i] takes the
    element at the drawn index and moves the last live element of the
    pool into its place. *)
Fixpoint pool_select {A} (n i : nat) (pool : list A) (draws : list nat)
    : option (list A) :=
  match draws with
  | [] => Some []
  | j :: draws' =>
      match pool !! j, pool !! (n - i - 1)%nat with
      | Some x, Some y =>
          (fun r => x :: r) <$> pool_select n (S i) (<[j := y]> pool) draws'
      | _, _ => None
      end
  end.

(** The bounds of the draws of the pool loop from round [i] on:
    [n - i], [n - i - 1], ... *)
Definition pool_bounds (n i k : nat) : list nat :=
  (fun i' => (n - i')%nat) <$> seq i k.

(** Every draw is below its bound. *)
Definition in_range (bounds draws : list nat) : Prop :=
  Forall2 (fun b d => (d < b)%nat) bounds draws.

(** Sampling from [n] positions with the pool loop, the draws [draws]
    select [positions], in that order. *)
Definition pool_selects (n : nat) (draws positions : list nat) : Prop :=
  pool_select n 0 (seq 0 n) draws = Some positions.

(** The draws that are not in [seen] and have not come up before, in
    the order in which they come up. *)
Fixpoint first_seen (seen : gset nat) (draws : list nat) : list nat :=
  match draws with
  | [] => []
  | d :: draws' =>
      if decide (d ∈ seen) then first_seen seen draws'
      else d :: first_seen ({[d]} ∪ seen) draws'
  end.

(** Sampling with the loop over the set of selected positions, the
    draws [draws] select the [k] positions [positions]: the positions
    are the different values among the draws, in the order of their
    first occurrence, and the draws end as soon as there are [k] of
    them. *)
Definition set_selects (k : nat) (draws positions : list nat) : Prop :=
  first_seen ∅ draws = positions /\
  length positions = k /\
  forall m, (m < length draws)%nat ->
    (length (first_seen ∅ (take m draws)) < k)%nat.

(** [selects n k s s' positions]: from the state [s], [random.sample]
    of [k] out of [n] elements asks the generator for the draws that
    select [positions], and leaves it in the state [s']. *)
Definition selects {RG : RandomGen} (n k : nat) (s s' : rng_state)
    (positions : list nat) : Prop :=
  if Z.of_nat n <=? setsize (Z.of_nat k) then
    exists draws,
      draw_seq (pool_bounds n 0 k) s = (draws, s') /\
      pool_selects n draws positions
  else
    exists m draws,
      draw_seq (replicate m n) s = (draws, s') /\
      set_selects k draws positions.

(** *** The directory tree *)

(** The location a path names when every directory on the way to it
    exists: the names are followed from the current directory [cwd], or
    from the root, and [".."] steps to the directory above. *)
Fixpoint target (cwd : path) (p : path) : path :=
  match p with
  | [] => cwd
  | c :: up =>
      if is_anchor p then []
      else if bool_decide (c = ".."%string) then tail (target cwd up)
      else c :: target cwd up
  end.








(** [w'] is [w] with entries added to the tree. *)
Definition extends {RG : RandomGen} (w w' : world) : Prop :=
  w' = with_fs w (w_fs w') /\
  forall l n, stat (w_fs w) l = Some n -> stat (w_fs w') l = Some n.

(** *** Prompts *)

(** The prompt without a few-shot block. *)
Definition two_slot_prompt (format_instructions : string) : ChatPromptTemplate :=
  {| messages := [SystemMessagePromptTemplate CHAT_SYSTEM_MESSAGE;
                  HumanMessagePromptTemplate SUFFIX];
     input_variables := ["intention"%string];
     partial_variables :=
       [("format_instructions"%string, format_instructions)] |}.

(** The prompt of one example inside the few-shot block. *)
Definition example_prompt_template : ChatPromptTemplate :=
  {| messages := [HumanMessagePromptTemplate SUFFIX;
                  AIMessagePromptTemplate "{detail}"];
     input_variables := ["intention"%string; "detail"%string];
     partial_variables := [] |}.

(** The prompt with a few-shot block. *)
Definition three_slot_prompt (format_instructions : string)
    (block : dict (kwarg ChatPromptTemplate (dict (option string))))
    : ChatPromptTemplate :=
  {| messages := [SystemMessagePromptTemplate CHAT_SYSTEM_MESSAGE;
                  FewShotChatMessagePromptTemplate block;
                  HumanMessagePromptTemplate SUFFIX];
     input_variables := ["intention"%string];
     partial_variables :=
       [("format_instructions"%string, format_instructions)] |}.

(** Two example lists with the same intentions and details, whatever
    their identifiers. *)
Definition same_content (exs exs' : list Example) : Prop :=
  Forall2 (fun e e' => intention e = intention e' /\ detail e = detail e')
    exs exs'.


(** The events [initialize_embeddings] adds to the trace when it is
    given a cache path. *)
Definition cache_events (name : string) : list event :=
  [EvHuggingFaceEmbeddings;
   EvLog "Use {embeddings_cache_name=} for embeddings cache." [name]].

Definition cache_required_message : string :=
  "embeddings_cache_name is required for retrieval based on sentence similarity between the extracted embeddings.".

Definition similarity_started : event :=
  EvLog "Initializing similarity-based example selector (start): (taking long time for the first time) ..." [].

Definition similarity_finished : event :=
  EvLog "Initializing similarity-based example selector (finished)" [].

Definition sample_range_message : string :=
  "Sample larger than population or is negative".

(** The outcomes of the example-selection dispatch, one constructor per
    way through [setup_examples_or_its_selector]: the strategy, the
    cache path, and the result with the world it leaves.  For the
    similarity strategy with a cache path, [w1] is the world the
    embedding provider leaves. *)
Inductive dispatch_outcome {RG : RandomGen} {P A : Type}
    (exs : list A) (k : Z) (w : world)
    : string -> option string -> result (dict (kwarg P A)) * world -> Prop :=
  | similarity_unconfigured :
      dispatch_outcome exs k w "similarity" None
        (Raise (AssertionError (Some cache_required_message)), w)
  | similarity_indexed (name : string) (w1 : world) :
      initialize_embeddings (Some name)
          (with_trace w (w_trace w ++ [similarity_started]))
        = (Ok (CacheBackedEmbeddings HuggingFaceEmbeddings name "hfemb_default"),
           w1) ->
      exs <> [] ->
      dispatch_outcome exs k w "similarity" (Some name)
        (Ok [("example_selector"%string,
              KwExampleSelector
                (SemanticSimilarity exs
                   (CacheBackedEmbeddings HuggingFaceEmbeddings name
                      "hfemb_default")
                   k ["intention"%string]))],
         with_trace w1
           (w_trace w1 ++ [EvEmbedDocuments (length exs); similarity_finished]))
  | similarity_unindexed (name : string) (embeddings : Embeddings)
      (w1 : world) :
      initialize_embeddings (Some name)
          (with_trace w (w_trace w ++ [similarity_started]))
        = (Ok embeddings, w1) ->
      exs = [] ->
      dispatch_outcome exs k w "similarity" (Some name)
        (Raise IndexError,
         with_trace w1 (w_trace w1 ++ [EvEmbedDocuments 0]))
  | similarity_blocked (name : string) (e : exn) (w1 : world) :
      initialize_embeddings (Some name)
          (with_trace w (w_trace w ++ [similarity_started]))
        = (Raise e, w1) ->
      dispatch_outcome exs k w "similarity" (Some name) (Raise e, w1)
  | random_deferred (cache : option string) :
      dispatch_outcome exs k w "random" cache
        (Ok [("example_selector"%string,
              KwExampleSelector (Random {| examples := exs; k := k |}))],
         w)
  | fixed_sampled (cache : option string) (r : list A) (s' : rng_state) :
      0 <= k <= Z.of_nat (length exs) ->
      Z.of_nat (length r) = k ->
      r ⊆+ exs ->
      dispatch_outcome exs k w "fixed" cache
        (Ok [("examples"%string, KwExamples r)], with_rng w s')
  | fixed_out_of_range (cache : option string) :
      k < 0 \/ Z.of_nat (length exs) < k ->
      dispatch_outcome exs k w "fixed" cache
        (Raise (ValueError sample_range_message), w)
  | strategy_unknown (few_shot_by : string) (cache : option string) :
      few_shot_by <> "similarity"%string ->
      few_shot_by <> "random"%string ->
      few_shot_by <> "fixed"%string ->
      dispatch_outcome exs k w few_shot_by cache
        (Raise (NotImplementedError None), w).

(** ** Concrete inputs

    Worlds over the counting generator, with the current directory
    [/work] and room for 990 nested calls: one with nothing else in the
    tree, one whose current directory holds a regular file [a], and one
    with room for two nested calls only. *)

Definition demo_world : @world counter :=
  @World counter 7%nat {[ ["work"%string] := Dir ]} ∅ [] ["work"%string] 990.



(** A name of 256 bytes, and a path of 17 names of 250 bytes each *)
Definition long_name : string :=
  string_of_list_ascii (repeat "a"%char 256).


Definition renumbered_examples : list Example :=
  [ {| intention := "poster"; detail := Some "plan A"%string;
       id := Some "a"%string |};
    {| intention := "banner"; detail := Some "plan B"%string;
       id := Some "b"%string |};
    {| intention := "flyer"; detail := None; id := None |} ].

Definition demo_examples : list Example :=
  [ {| intention := "poster"; detail := Some "plan A"%string; id := None |};
    {| intention := "banner"; detail := Some "plan B"%string; id := None |};
    {| intention := "flyer"; detail := None; id := Some "3"%string |} ].

(** * Properties *)

(** Unfolding the monad of effects *)
Ltac run_M :=
  unfold mbind, M_bind, bind, mret, M_ret, ret, raise, assert, emit in *;
  simpl.

(** ** Sampling *)

(** The exponent of [setsize] is the least one. *)
Lemma ceil_log4_spec (x : Z) :
  1 < x -> 4 ^ (ceil_log4 x - 1) < x <= 4 ^ ceil_log4 x.
Proof.
  intros Hx. unfold ceil_log4.
  pose proof (Z.log2_up_spec x Hx) as [Hlo Hhi].
  pose proof (Z.log2_up_pos x Hx) as Hpos.
  set (L := Z.log2_up x) in *. set (m := (L + 1) / 2).
  assert (Hm : 2 * m <= L + 1 < 2 * m + 2).
  { unfold m. pose proof (Z.div_mod (L + 1) 2 ltac:(lia)).
    pose proof (Z.mod_pos_bound (L + 1) 2 ltac:(lia)). lia. }
  assert (H4 : forall e, 0 <= e -> 4 ^ e = 2 ^ (2 * e)).
  { intros e He. change 4 with (2 ^ 2). by rewrite <- Z.pow_mul_r by lia. }
  rewrite !H4 by lia. split.
  - eapply Z.le_lt_trans; [|exact Hlo].
    apply Z.pow_le_mono_r; lia.
  - eapply Z.le_trans; [exact Hhi|].
    apply Z.pow_le_mono_r; lia.
Qed.

(** The pool loop is always run for at most 21 elements. *)
Lemma setsize_ge (k : Z) : 21 <= setsize k.
Proof.
  unfold setsize. destruct (5 <? k); [|lia].
  pose proof (Z.pow_nonneg 4 (ceil_log4 (k * 3)) ltac:(lia)). lia.
Qed.

Section SamplingFacts.
Context {RG : RandomGen}.

(** One round of the pool loop takes [x] out of the live part of the
    pool. *)
Lemma pool_step_perm {A} (pool : list A) (m j : nat) (x y : A) :
  (j < m)%nat -> (m <= length pool)%nat ->
  pool !! j = Some x -> pool !! (m - 1)%nat = Some y ->
  take m pool ≡ₚ x :: take (m - 1) (<[j := y]> pool).
Proof.
  intros Hj Hm Hx Hy.
  destruct m as [|m]; [lia|].
  replace (S m - 1)%nat with m in * by lia.
  rewrite (take_S_r _ _ _ Hy).
  destruct (decide (j = m)) as [->|Hne].
  - assert (x = y) by congruence. subst y.
    rewrite take_insert_ge by lia.
    symmetry. apply Permutation_cons_append.
  - assert (Hjm : (j < m)%nat) by lia.
    rewrite take_insert_lt by lia.
    assert (Hq : take m pool !! j = Some x)
      by (rewrite lookup_take_lt by lia; exact Hx).
    rewrite insert_take_drop by (rewrite length_take; lia).
    rewrite <- (take_drop_middle _ _ _ Hq) at 1.
    rewrite <- !app_assoc. simpl.
    rewrite <- Permutation_middle. constructor.
    rewrite <- !Permutation_middle.
    by rewrite app_nil_r.
Qed.

(** The pool loop never indexes outside the pool, returns as many
    elements as rounds, and what it returns is a part of the live
    pool: the selection [pool_select] makes on the draws of the
    generator, which are in range. *)
Lemma sample_loop_spec {A} (n : nat) (fuel : nat) :
  forall (i : nat) (pool : list A) (s : rng_state),
    length pool = n -> (fuel + i <= n)%nat ->
    exists r draws s',
      sample_loop n fuel i pool s = (Ok r, s') /\
      length r = fuel /\
      r ⊆+ take (n - i) pool /\
      draw_seq (pool_bounds n i fuel) s = (draws, s') /\
      in_range (pool_bounds n i fuel) draws /\
      pool_select n i pool draws = Some r.
Proof.
  induction fuel as [|fuel IH]; intros i pool s Hlen Hle.
  - exists [], [], s. simpl. split_and!; try done.
    + apply submseteq_nil_l.
    + constructor.
  - cbn [sample_loop pool_bounds seq fmap list_fmap draw_seq].
    pose proof (randbelow_lt s (n - i)%nat ltac:(lia)) as Hj.
    destruct (randbelow s (n - i)%nat) as [j s1]. simpl in Hj.
    destruct (lookup_lt_is_Some_2 pool j ltac:(lia)) as [x Hx].
    destruct (lookup_lt_is_Some_2 pool (n - i - 1)%nat ltac:(lia)) as [y Hy].
    rewrite Hx, Hy.
    destruct (IH (S i) (<[j := y]> pool) s1)
      as (r & draws & s2 & Hrun & Hr & Hsub & Hdraws & Hrange & Hsel).
    { rewrite length_insert. exact Hlen. }
    { lia. }
    rewrite Hrun. unfold pool_bounds in Hdraws. rewrite Hdraws.
    exists (x :: r), (j :: draws), s2. split_and!; try done.
    + simpl. lia.
    + rewrite (pool_step_perm pool (n - i)%nat j x y) by (try lia; assumption).
      apply submseteq_skip.
      replace (n - i - 1)%nat with (n - S i)%nat by lia. exact Hsub.
    + by constructor.
    + simpl. by rewrite Hx, Hy, Hsel.
Qed.

(** The loop commutes with a map over the pool. *)
Lemma sample_loop_fmap {A B} (f : A -> B) (n fuel : nat) :
  forall (i : nat) (pool : list A) (s : rng_state),
    sample_loop n fuel i (f <$> pool) s =
      (result_map (fmap f) (fst (sample_loop n fuel i pool s)),
       snd (sample_loop n fuel i pool s)).
Proof.
  induction fuel as [|fuel IH]; intros i pool s; [done|].
  simpl. destruct (randbelow s (n - i)%nat) as [j s1].
  rewrite !list_lookup_fmap.
  destruct (pool !! j) as [x|]; [|done].
  destruct (pool !! (n - i - 1)%nat) as [y|]; [|done]. simpl.
  rewrite <- list_fmap_insert, IH.
  by destruct (sample_loop n fuel (S i) (<[j:=y]> pool) s1) as [[r|e] s2].
Qed.

Lemma pool_select_fmap {A B} (f : A -> B) (n : nat) (draws : list nat) :
  forall (i : nat) (pool : list A),
    pool_select (A := B) n i (f <$> pool) draws =
      (fun r : list A => f <$> r) <$> pool_select n i pool draws.
Proof.
  induction draws as [|j draws IH]; intros i pool; [done|].
  simpl. rewrite !list_lookup_fmap.
  destruct (pool !! j) as [x|]; [|done].
  destruct (pool !! (n - i - 1)%nat) as [y|]; [|done]. simpl.
  rewrite <- list_fmap_insert, IH.
  by destruct (pool_select n (S i) (<[j:=y]> pool) draws).
Qed.

(** Elements at pairwise different positions of a list are a part of
    the list. *)
Lemma positions_submseteq {A} (l r : list A) (positions : list nat) :
  NoDup positions ->
  Forall2 (fun i x => l !! i = Some x) positions r ->
  r ⊆+ l.
Proof.
  intros Hnd Hat.
  pose proof (Forall2_length _ _ _ Hat) as Hlen.
  assert (Hsub : zip positions r ⊆+ zip (seq 0 (length l)) l).
  { apply NoDup_submseteq.
    - apply (NoDup_fmap_1 fst). by rewrite fst_zip by lia.
    - intros [i x] Hin. apply list_elem_of_lookup in Hin as [j Hj].
      apply lookup_zip_Some in Hj as [Hi Hx].
      pose proof (Forall2_lookup_lr _ _ _ _ _ _ Hat Hi Hx) as Hl.
      apply list_elem_of_lookup. exists i. apply lookup_zip_Some.
      simpl in Hl. split; [|done]. apply lookup_seq. split; [done|].
      by eapply lookup_lt_Some. }
  apply (fmap_submseteq snd) in Hsub.
  rewrite !snd_zip in Hsub by (rewrite ?length_seq; lia). done.
Qed.

Lemma submseteq_keeps_NoDup {A} (l r : list A) : r ⊆+ l -> NoDup l -> NoDup r.
Proof.
  intros Hsub Hl.
  destruct (submseteq_Permutation _ _ Hsub) as [rest Hperm].
  rewrite Hperm in Hl. by apply NoDup_app in Hl as [? _].
Qed.

(** The sampled elements are the stored elements at the sampled
    positions: the loop run on the list and the selection made on its
    positions [0 .. n - 1] draw alike. *)
Lemma sample_loop_positions {A} (exs : list A) (fuel : nat) (s : rng_state) :
  (fuel <= length exs)%nat ->
  exists (r : list A) (positions draws : list nat) (s' : rng_state),
    sample_loop (length exs) fuel 0 exs s = (Ok r, s') /\
    draw_seq (pool_bounds (length exs) 0 fuel) s = (draws, s') /\
    pool_selects (length exs) draws positions /\
    length r = fuel /\
    NoDup positions /\
    Forall2 (fun i x => exs !! i = Some x) positions r.
Proof.
  intros Hle. set (n := length exs).
  set (pairs := zip (seq 0 n) exs).
  assert (Hlen : length pairs = n).
  { unfold pairs. rewrite length_zip, length_seq. lia. }
  destruct (sample_loop_spec n fuel 0 pairs s Hlen ltac:(lia))
    as (rp & draws & s' & Hrun & Hrp & Hsub & Hdraws & _ & Hsel).
  rewrite Nat.sub_0_r, firstn_all2 in Hsub by lia.
  pose proof (sample_loop_fmap snd n fuel 0 pairs s) as Hsnd.
  pose proof (pool_select_fmap fst n draws 0 pairs) as Hfst.
  unfold pairs in Hsnd at 1. unfold pairs in Hfst at 1.
  rewrite snd_zip in Hsnd by (rewrite length_seq; lia).
  rewrite fst_zip in Hfst by (rewrite length_seq; lia).
  rewrite Hrun in Hsnd. rewrite Hsel in Hfst. simpl in Hsnd, Hfst.
  exists (rp.*2), (rp.*1), draws, s'. split_and!; [done | done | done | | |].
  - by rewrite length_fmap.
  - apply (submseteq_keeps_NoDup (seq 0 n)); [|apply NoDup_seq].
    rewrite <- (fst_zip (seq 0 n) exs) by (rewrite length_seq; lia).
    by apply fmap_submseteq.
  - apply Forall2_fmap_2, Forall_Forall2_diag, Forall_forall.
    intros [i x] Hin. simpl.
    apply (elem_of_submseteq _ _ _ Hin) in Hsub.
    apply list_elem_of_lookup in Hsub as [j Hj].
    apply lookup_zip_Some in Hj as [Hi Hx].
    apply lookup_seq in Hi as [-> _]. done.
Qed.

(** *** The loop over the set of selected positions *)

Lemma draw_seq_app (bounds1 bounds2 : list nat) :
  forall (s : rng_state) (d1 d2 : list nat) (s1 s2 : rng_state),
    draw_seq bounds1 s = (d1, s1) ->
    draw_seq bounds2 s1 = (d2, s2) ->
    draw_seq (bounds1 ++ bounds2) s = (d1 ++ d2, s2).
Proof.
  induction bounds1 as [|b bounds1 IH]; intros s d1 d2 s1 s2 H1 H2.
  - injection H1 as <- <-. done.
  - simpl in *. destruct (randbelow s b) as [j sj].
    destruct (draw_seq bounds1 sj) as [js sk] eqn:Hrest.
    injection H1 as <- <-.
    by rewrite (IH _ _ _ _ _ Hrest H2).
Qed.

Lemma draw_seq_in_range (bounds : list nat) :
  forall s : rng_state,
    Forall (fun b => (0 < b)%nat) bounds ->
    in_range bounds (fst (draw_seq bounds s)).
Proof.
  induction bounds as [|b bounds IH]; intros s Hpos; [constructor|].
  apply Forall_cons in Hpos as [Hb Hpos]. simpl.
  pose proof (randbelow_lt s b Hb) as Hj.
  destruct (randbelow s b) as [j sj]. simpl in Hj.
  specialize (IH sj Hpos).
  destruct (draw_seq bounds sj) as [js sk]. by constructor.
Qed.

Lemma draw_seq_replicate_lt (n t : nat) :
  forall s : rng_state,
    (0 < n)%nat ->
    Forall (fun d => (d < n)%nat) (fst (draw_seq (replicate t n) s)).
Proof.
  induction t as [|t IH]; intros s Hn; [constructor|].
  simpl. pose proof (randbelow_lt s n Hn) as Hj.
  destruct (randbelow s n) as [j sj]. simpl in Hj.
  specialize (IH sj Hn).
  destruct (draw_seq (replicate t n) sj) as [js sk]. by constructor.
Qed.

(** A position below [n] is left as long as fewer than [n] are
    selected. *)
Lemma fresh_position (n : nat) (selected : gset nat) :
  (forall j, j ∈ selected -> (j < n)%nat) -> (size selected < n)%nat ->
  exists j, (j < n)%nat /\ j ∉ selected.
Proof.
  intros Hlt Hsize.
  destruct (Forall_Exists_dec (fun j => j ∈ selected) (fun j => j ∉ selected)
              (fun j => decide (j ∈ selected)) (seq 0 n)) as [Hall|Hex].
  - exfalso.
    assert (Hsub : list_to_set (C := gset nat) (seq 0 n) ⊆ selected).
    { intros j Hj. apply elem_of_list_to_set in Hj.
      by apply (proj1 (Forall_forall _ _) Hall). }
    apply subseteq_size in Hsub.
    rewrite size_list_to_set, length_seq in Hsub by apply NoDup_seq. lia.
  - apply Exists_exists in Hex as (j & Hj & Hfresh).
    apply elem_of_seq in Hj. exists j. split; [lia | done].
Qed.

(** [while j in selected: j = randbelow(n)] ends as soon as a draw is
    not in [selected], on that draw; the draws before it were all
    in [selected]. *)
Lemma redraw_spec (n : nat) (selected : gset nat) (i : nat) :
  forall (fuel j0 : nat) (s0 : rng_state),
    (i < fuel)%nat ->
    fst (randbelow (Nat.iter i (fun t => snd (randbelow t n)) s0) n)
      ∉ selected ->
    exists (t : nat) (pre before : list nat) (j : nat) (s1 : rng_state),
      redraw n (S fuel) selected j0 s0 = (j, s1) /\
      draw_seq (replicate t n) s0 = (pre, s1) /\
      j0 :: pre = before ++ [j] /\
      Forall (fun d => d ∈ selected) before /\
      j ∉ selected.
Proof.
  induction i as [|i IH]; intros fuel j0 s0 Hi Hfresh.
  - simpl in Hfresh. cbn [redraw].
    destruct (decide (j0 ∈ selected)) as [Hin|Hout].
    + destruct (randbelow s0 n) as [j' s'] eqn:Hdraw. simpl in Hfresh.
      destruct fuel as [|fuel]; [lia|]. cbn [redraw].
      rewrite decide_False by done.
      exists 1%nat, [j'], [j0], j', s'. simpl. rewrite Hdraw.
      split_and!; try done. by constructor.
    + exists 0%nat, [], [], j0, s0. by split_and!.
  - rewrite Nat.iter_succ_r in Hfresh. cbn [redraw].
    destruct (decide (j0 ∈ selected)) as [Hin|Hout].
    + destruct (randbelow s0 n) as [j' s'] eqn:Hdraw. simpl in Hfresh.
      destruct fuel as [|fuel]; [lia|].
      destruct (IH fuel j' s' ltac:(lia) Hfresh)
        as (t & pre & before & j & s1 & Hrun & Hdraws & Hsplit & Hbefore
            & Hj).
      exists (S t), (j' :: pre), (j0 :: before), j, s1.
      cbn [replicate draw_seq]. rewrite Hdraw, Hdraws, Hrun, Hsplit.
      split_and!; try done. by constructor.
    + exists 0%nat, [], [], j0, s0. by split_and!.
Qed.

Lemma first_seen_skip (seen : gset nat) (before draws : list nat) :
  Forall (fun d => d ∈ seen) before ->
  first_seen seen (before ++ draws) = first_seen seen draws.
Proof.
  induction 1 as [|d before Hd _ IH]; [done|].
  simpl. by rewrite decide_True.
Qed.

Lemma first_seen_spec (draws : list nat) :
  forall seen : gset nat,
    NoDup (first_seen seen draws) /\
    forall x, x ∈ first_seen seen draws -> (x ∉ seen) /\ (x ∈ draws).
Proof.
  induction draws as [|d draws IH]; intros seen.
  - split; [constructor|]. intros x Hx. by apply elem_of_nil in Hx.
  - simpl. destruct (decide (d ∈ seen)) as [Hin|Hout].
    + destruct (IH seen) as [Hnd Hel]. split; [done|].
      intros x Hx. destruct (Hel x Hx). split; [done | by right].
    + destruct (IH ({[d]} ∪ seen)) as [Hnd Hel]. split.
      * constructor; [|done]. intros Hd. destruct (Hel d Hd) as [Hno _].
        apply Hno. apply elem_of_union_l. by apply elem_of_singleton.
      * intros x Hx. apply elem_of_cons in Hx as [->|Hx]; [split; [done | by left]|].
        destruct (Hel x Hx) as [Hno Hin]. split; [|by right].
        intros Hs. apply Hno. by apply elem_of_union_r.
Qed.

(** The loop over the set never indexes outside the population and
    comes to an end; it selects the positions that come up first among
    the draws of the generator, and stops drawing with the last of
    them. *)
Lemma sample_set_loop_spec {A} (population : list A) (fuel : nat) :
  forall (selected : gset nat) (s : rng_state),
    (forall j, j ∈ selected -> (j < length population)%nat) ->
    (size selected + fuel <= length population)%nat ->
    exists (r : list A) (positions : list nat) (m : nat) (draws : list nat)
           (s' : rng_state),
      sample_set_loop (length population) fuel population selected s
        = (Ok r, s') /\
      draw_seq (replicate m (length population)) s = (draws, s') /\
      first_seen selected draws = positions /\
      length positions = fuel /\
      Forall2 (fun i x => population !! i = Some x) positions r /\
      forall m', (m' < length draws)%nat ->
        (length (first_seen selected (take m' draws)) < fuel)%nat.
Proof.
  set (n := length population).
  induction fuel as [|fuel IH]; intros selected s Hsel Hsize.
  - exists [], [], 0%nat, [], s. simpl. split_and!; [done.. | constructor |].
    intros m' Hm'. lia.
  - cbn [sample_set_loop].
    pose proof (randbelow_lt s n ltac:(lia)) as Hj0.
    destruct (randbelow s n) as [j0 s0] eqn:Hdraw0. simpl in Hj0.
    destruct (fresh_position n selected Hsel ltac:(lia)) as (jf & Hjf & Hfresh).
    destruct (randbelow_fair s0 n jf Hjf) as (i & Hi & Hreach).
    rewrite <- Hreach in Hfresh.
    destruct (redraw_spec n selected i (patience s0 n) j0 s0 Hi Hfresh)
      as (t & pre & before & j & s1 & Hrun & Hdraws & Hsplit & Hbefore & Hj).
    rewrite Hrun.
    assert (Hjn : (j < n)%nat).
    { pose proof (draw_seq_replicate_lt n t s0 ltac:(lia)) as Hall.
      rewrite Hdraws in Hall. simpl in Hall.
      assert (Hall' : Forall (fun d => (d < n)%nat) (j0 :: pre))
        by (by constructor).
      rewrite Hsplit in Hall'. apply Forall_app in Hall' as [_ Hall'].
      by apply Forall_cons in Hall' as [? _]. }
    destruct (lookup_lt_is_Some_2 population j Hjn) as [x Hx].
    rewrite Hx.
    destruct (IH ({[j]} ∪ selected) s1)
      as (r & positions & m & draws & s' & Hloop & Hd & Hseen & Hlen & Hat
          & Hmin).
    { intros j' Hj'. apply elem_of_union in Hj' as [Hj'|Hj']; [|by apply Hsel].
      apply elem_of_singleton in Hj'. by subst. }
    { rewrite size_union by set_solver. rewrite size_singleton. lia. }
    rewrite Hloop.
    exists (x :: r), (j :: positions), (S t + m)%nat, ((j0 :: pre) ++ draws), s'.
    split_and!.
    + done.
    + rewrite replicate_add. cbn [replicate app draw_seq]. rewrite Hdraw0.
      rewrite (draw_seq_app _ _ _ _ _ _ _ Hdraws Hd). done.
    + rewrite Hsplit, <- app_assoc, first_seen_skip by done.
      simpl. rewrite decide_False by done. by rewrite Hseen.
    + simpl. by rewrite Hlen.
    + by constructor.
    + intros m' Hm'. rewrite Hsplit, <- app_assoc.
      destruct (decide (m' <= length before)%nat) as [Hle|Hgt].
      * rewrite take_app_le by done.
        rewrite <- (app_nil_r (take m' before)), first_seen_skip.
        { simpl. lia. }
        apply Forall_take. done.
      * rewrite take_app_ge by lia.
        rewrite first_seen_skip by done.
        destruct (m' - length before)%nat as [|m1] eqn:Hm1; [lia|].
        simpl. rewrite decide_False by done. simpl.
        assert (Hm1' : (m1 < length draws)%nat).
        { rewrite Hsplit, <- app_assoc, !length_app in Hm'. simpl in Hm'. lia. }
        specialize (Hmin m1 Hm1'). lia.
Qed.

End SamplingFacts.

(** *** [random.sample] *)

Section SampleFacts.
Context {RG : RandomGen}.

(** [random.sample] inside its range: it returns, only the generator
    moves, and the sample holds the elements at the positions the
    draws of the generator select. *)
Lemma random_sample_selects {A} (l : list A) (k : Z) (w : world) :
  0 <= k <= Z.of_nat (length l) ->
  exists r positions s',
    random_sample l k w = (Ok r, with_rng w s') /\
    Z.of_nat (length r) = k /\
    NoDup positions /\
    Forall2 (fun i x => l !! i = Some x) positions r /\
    selects (length l) (Z.to_nat k) (w_rng w) s' positions.
Proof.
  intros Hk. unfold random_sample, selects.
  rewrite (proj2 (Z.leb_le 0 k)), (proj2 (Z.leb_le k _)) by lia. simpl.
  rewrite Z2Nat.id by lia.
  destruct (Z.of_nat (length l) <=? setsize k).
  - destruct (sample_loop_positions l (Z.to_nat k) (w_rng w))
      as (r & positions & draws & s' & Hrun & Hd & Hsel & Hlen & Hnd & Hat);
      [lia|].
    rewrite Hrun. exists r, positions, s'.
    split_and!; [done | lia | done | done | by exists draws].
  - destruct (sample_set_loop_spec l (Z.to_nat k) ∅ (w_rng w))
      as (r & positions & m & draws & s' & Hrun & Hd & Hseen & Hlen & Hat
          & Hmin).
    { intros j Hj. by apply elem_of_empty in Hj. }
    { rewrite size_empty. lia. }
    rewrite Hrun. exists r, positions, s'. split_and!.
    + done.
    + rewrite <- (Forall2_length _ _ _ Hat). lia.
    + rewrite <- Hseen. apply first_seen_spec.
    + done.
    + exists m, draws. by split_and!.
Qed.

(** [random.sample] inside its range: it returns, only the generator
    moves, and the sample is a part of the population. *)
Lemma random_sample_ok {A} (l : list A) (k : Z) (w : world) :
  0 <= k <= Z.of_nat (length l) ->
  exists r s',
    random_sample l k w = (Ok r, with_rng w s') /\
    Z.of_nat (length r) = k /\
    r ⊆+ l.
Proof.
  intros Hk.
  destruct (random_sample_selects l k w Hk)
    as (r & positions & s' & Hrun & Hlen & Hnd & Hat & _).
  exists r, s'. split_and!; [done | done |].
  by eapply positions_submseteq.
Qed.

(** [random.sample] outside its range *)
Lemma random_sample_error {A} (l : list A) (k : Z) (w : world) :
  k < 0 \/ Z.of_nat (length l) < k ->
  random_sample l k w =
    (Raise (ValueError "Sample larger than population or is negative"), w).
Proof.
  intros Hk. unfold random_sample.
  replace ((0 <=? k) && (k <=? Z.of_nat (length l))) with false by lia.
  reflexivity.
Qed.

(** The sample is a function of the generator state alone. *)
Lemma random_sample_rng_only {A} (l : list A) (k : Z) (w1 w2 : world) :
  w_rng w1 = w_rng w2 ->
  fst (random_sample l k w1) = fst (random_sample l k w2) /\
  w_rng (snd (random_sample l k w1)) = w_rng (snd (random_sample l k w2)).
Proof.
  intros Hs. unfold random_sample. rewrite Hs.
  destruct (negb _); [done|].
  by destruct (if Z.of_nat (length l) <=? setsize k then _ else _).
Qed.

End SampleFacts.

(** *** Every selection is as likely as any other

    The pool loop is a bijection between the sequences of in-range
    draws and the ordered selections of [k] different positions.  The
    loop over the set treats all positions alike: renaming the
    positions in the draws renames them in the selection, and every
    ordered selection is made by some draws.  When the draws are
    uniform, so is the sample. *)

Lemma in_range_cons_inv (n i k : nat) (draws : list nat) :
  in_range (pool_bounds n i (S k)) draws ->
  exists j draws',
    draws = j :: draws' /\ (j < n - i)%nat /\
    in_range (pool_bounds n (S i) k) draws'.
Proof.
  intros Hr. inversion Hr as [|b j bounds draws' Hj Hrest]; subst.
  by exists j, draws'.
Qed.

Lemma pool_select_spec {A} (n k : nat) :
  forall (i : nat) (pool : list A) (draws : list nat),
    length pool = n -> (k + i <= n)%nat ->
    in_range (pool_bounds n i k) draws ->
    exists r,
      pool_select n i pool draws = Some r /\ length r = k.
Proof.
  induction k as [|k IH]; intros i pool draws Hlen Hle Hr.
  - inversion Hr; subst. by exists [].
  - apply in_range_cons_inv in Hr as (j & draws' & -> & Hj & Hr).
    destruct (lookup_lt_is_Some_2 pool j ltac:(lia)) as [x Hx].
    destruct (lookup_lt_is_Some_2 pool (n - i - 1)%nat ltac:(lia)) as [y Hy].
    destruct (IH (S i) (<[j:=y]> pool) draws') as (r & Hsel & Hl);
      [by rewrite length_insert | lia | done |].
    exists (x :: r). simpl. rewrite Hx, Hy, Hsel. split; [done|].
    simpl. by rewrite Hl.
Qed.

Lemma pool_select_injective {A} (n k : nat) :
  forall (i : nat) (pool : list A) (d1 d2 : list nat),
    length pool = n -> (k + i <= n)%nat ->
    NoDup (take (n - i) pool) ->
    in_range (pool_bounds n i k) d1 -> in_range (pool_bounds n i k) d2 ->
    pool_select n i pool d1 = pool_select n i pool d2 ->
    d1 = d2.
Proof.
  induction k as [|k IH]; intros i pool d1 d2 Hlen Hle Hnd R1 R2 Heq.
  - inversion R1; inversion R2; by subst.
  - apply in_range_cons_inv in R1 as (j1 & d1' & -> & Hj1 & R1).
    apply in_range_cons_inv in R2 as (j2 & d2' & -> & Hj2 & R2).
    destruct (lookup_lt_is_Some_2 pool j1 ltac:(lia)) as [x1 Hx1].
    destruct (lookup_lt_is_Some_2 pool j2 ltac:(lia)) as [x2 Hx2].
    destruct (lookup_lt_is_Some_2 pool (n - i - 1)%nat ltac:(lia)) as [y Hy].
    simpl in Heq. rewrite Hx1, Hx2, Hy in Heq.
    destruct (pool_select_spec n k (S i) (<[j1:=y]> pool) d1')
      as (r1 & E1 & _); [by rewrite length_insert | lia | done |].
    destruct (pool_select_spec n k (S i) (<[j2:=y]> pool) d2')
      as (r2 & E2 & _); [by rewrite length_insert | lia | done |].
    pose proof E1 as E1'. pose proof E2 as E2'.
    rewrite E1, E2 in Heq. simpl in Heq. injection Heq as Hx Hr.
    subst x2 r2.
    assert (j1 = j2) as <-.
    { apply (NoDup_lookup (take (n - i) pool) j1 j2 x1 Hnd);
        by apply lookup_take_Some. }
    f_equal.
    apply (IH (S i) (<[j1:=y]> pool)); try done.
    + by rewrite length_insert.
    + lia.
    + pose proof (pool_step_perm pool (n - i)%nat j1 x1 y Hj1 ltac:(lia) Hx1 Hy)
        as Hperm.
      rewrite Hperm in Hnd. apply NoDup_cons in Hnd as [_ Hnd].
      by replace (n - S i)%nat with (n - i - 1)%nat by lia.
    + by rewrite E1', E2'.
Qed.

Lemma pool_select_surjective {A} (n : nat) (r : list A) :
  forall (i : nat) (pool : list A),
    length pool = n -> (length r + i <= n)%nat ->
    NoDup r -> r ⊆ take (n - i) pool ->
    exists d : list nat,
      in_range (pool_bounds n i (length r)) d /\
      pool_select n i pool d = Some r.
Proof.
  induction r as [|x r IH]; intros i pool Hlen Hle Hnd Hsub.
  - exists []. split; [constructor | done].
  - apply NoDup_cons in Hnd as [Hx Hnd]. simpl in Hle.
    assert (Hin : x ∈ take (n - i) pool) by (apply Hsub; left).
    apply list_elem_of_lookup in Hin as [j Hj].
    apply lookup_take_Some in Hj as [Hj Hlt].
    destruct (lookup_lt_is_Some_2 pool (n - i - 1)%nat ltac:(lia)) as [y Hy].
    pose proof (pool_step_perm pool (n - i)%nat j x y Hlt ltac:(lia) Hj Hy)
      as Hperm.
    destruct (IH (S i) (<[j:=y]> pool)) as (d & Hrange & Hrun).
    + by rewrite length_insert.
    + lia.
    + done.
    + intros z Hz.
      assert (Hz' : z ∈ take (n - i) pool) by (apply Hsub; by right).
      rewrite Hperm in Hz'. apply elem_of_cons in Hz' as [->|Hz']; [done|].
      by replace (n - S i)%nat with (n - i - 1)%nat by lia.
    + exists (j :: d). split.
      * cbn [length pool_bounds seq fmap list_fmap]. by constructor.
      * simpl. by rewrite Hj, Hy, Hrun.
Qed.

Lemma every_selection_once (n k : nat) (positions : list nat) :
  NoDup positions -> length positions = k ->
  (forall p, p ∈ positions -> (p < n)%nat) ->
  exists draws,
    in_range (pool_bounds n 0 k) draws /\
    pool_selects n draws positions /\
    forall draws',
      in_range (pool_bounds n 0 k) draws' ->
      pool_selects n draws' positions -> draws' = draws.
Proof.
  intros Hnd Hlen Hlt.
  assert (Hsub : positions ⊆ seq 0 n).
  { intros p Hp. apply elem_of_seq. specialize (Hlt p Hp). lia. }
  assert (Hk : (k <= n)%nat).
  { pose proof (submseteq_length _ _ (NoDup_submseteq _ _ Hnd Hsub)) as Hl.
    rewrite length_seq in Hl. lia. }
  destruct (pool_select_surjective n positions 0 (seq 0 n))
    as (d & Hrange & Hrun).
  { apply length_seq. }
  { lia. }
  { done. }
  { rewrite Nat.sub_0_r, firstn_all2 by (rewrite length_seq; lia). done. }
  rewrite Hlen in Hrange.
  exists d. split_and!; [done | done |].
  intros d' Hrange' Hrun'.
  apply (pool_select_injective n k 0 (seq 0 n)); try done.
  - apply length_seq.
  - lia.
  - rewrite Nat.sub_0_r, firstn_all2 by (rewrite length_seq; lia).
    apply NoDup_seq.
  - unfold pool_selects in *. by rewrite Hrun', Hrun.
Qed.

Lemma first_seen_fmap (f : nat -> nat) (draws : list nat) :
  Inj (=) (=) f ->
  forall seen seen' : gset nat,
    (forall x, f x ∈ seen' <-> x ∈ seen) ->
    first_seen seen' (f <$> draws) = f <$> first_seen seen draws.
Proof.
  intros Hinj. induction draws as [|d draws IH]; intros seen seen' Hrel; [done|].
  simpl. destruct (decide (d ∈ seen)) as [Hin|Hout].
  - rewrite decide_True by (by apply Hrel). by apply IH.
  - rewrite decide_False by (by rewrite Hrel). simpl. f_equal.
    apply IH. intros x. rewrite !elem_of_union, !elem_of_singleton, Hrel.
    split; (intros [Heq|Hx]; [left | by right]); [by apply Hinj | by subst].
Qed.

Lemma first_seen_fresh (draws : list nat) :
  forall seen : gset nat,
    NoDup draws -> (forall x, x ∈ draws -> x ∉ seen) ->
    first_seen seen draws = draws.
Proof.
  induction draws as [|d draws IH]; intros seen Hnd Hfresh; [done|].
  apply NoDup_cons in Hnd as [Hd Hnd]. simpl.
  rewrite decide_False by (apply Hfresh; left). f_equal.
  apply IH; [done|]. intros x Hx Hs.
  apply elem_of_union in Hs as [Hs|Hs].
  - apply elem_of_singleton in Hs. by subst.
  - apply (Hfresh x); [by right | done].
Qed.

(** Renaming the positions *)
Lemma set_selects_renamed (f : nat -> nat) (k : nat)
    (draws positions : list nat) :
  Inj (=) (=) f ->
  set_selects k draws positions ->
  set_selects k (f <$> draws) (f <$> positions).
Proof.
  intros Hinj (Hseen & Hlen & Hmin).
  assert (Hrel : forall x, f x ∈ (∅ : gset nat) <-> x ∈ (∅ : gset nat)).
  { intros x. split; intros Hx; by apply elem_of_empty in Hx. }
  split_and!.
  - by rewrite (first_seen_fmap f draws Hinj ∅ ∅ Hrel), Hseen.
  - by rewrite length_fmap.
  - intros m Hm. rewrite length_fmap in Hm. rewrite <- fmap_take.
    rewrite (first_seen_fmap f _ Hinj ∅ ∅ Hrel), length_fmap. by apply Hmin.
Qed.

(** Every ordered selection is made by some draws, for one by
    itself. *)
Lemma set_selects_self (positions : list nat) :
  NoDup positions ->
  set_selects (length positions) positions positions.
Proof.
  intros Hnd. split_and!.
  - apply first_seen_fresh; [done|]. intros x _ Hx. by apply elem_of_empty in Hx.
  - done.
  - intros m Hm. rewrite first_seen_fresh.
    + rewrite length_take. lia.
    + rewrite <- (take_drop m positions) in Hnd.
      by apply NoDup_app in Hnd as [? _].
    + intros x _ Hx. by apply elem_of_empty in Hx.
Qed.

(** ** Directory creation *)










Lemma stat_insert_ne (fs : gmap path node) (l q : path) :
  l <> q -> stat (<[l := Dir]> fs) q = stat fs q.
Proof.
  intros Hne. destruct q as [|c q]; [done|]. by apply lookup_insert_ne.
Qed.

Lemma stat_insert_keeps (fs : gmap path node) (l q : path) (n : node) :
  stat fs l = None -> stat fs q = Some n -> stat (<[l := Dir]> fs) q = Some n.
Proof.
  intros Hl Hq. rewrite stat_insert_ne; [done|]. intros ->. congruence.
Qed.






(** *** The walk of the kernel *)




Section PathFacts.
Context {RG : RandomGen}.


Lemma extends_refl (w : world) : extends w w.
Proof. split; [by destruct w | done]. Qed.

Lemma extends_trans (w1 w2 w3 : world) :
  extends w1 w2 -> extends w2 w3 -> extends w1 w3.
Proof.
  intros [E1 K1] [E2 K2]. split; [|by auto].
  rewrite E2, E1. by destruct w1.
Qed.

(** The calls that ask about the tree leave the world alone. *)
Lemma os_stat_world (p : path) (w : world) : snd (os_stat p w) = w.
Proof.
  unfold os_stat. destruct (existsb has_nul p); [done|].
  destruct (PATH_MAX <=? _)%nat; [done|].
  by destruct (resolve _ _ p).
Qed.

Lemma stat_failed_world (e : exn) (w : world) : snd (stat_failed e w) = w.
Proof.
  unfold stat_failed. destruct (is_OSError e).
  - by destruct (negb (ignore_error e)).
  - by destruct e.
Qed.

Lemma path_exists_world (p : path) (w : world) : snd (path_exists p w) = w.
Proof.
  unfold path_exists. pose proof (os_stat_world p w) as H.
  destruct (os_stat p w) as [[r|e] w']; simpl in H; subst; [done|].
  apply stat_failed_world.
Qed.

Lemma path_is_dir_world (p : path) (w : world) : snd (path_is_dir p w) = w.
Proof.
  unfold path_is_dir. pose proof (os_stat_world p w) as H.
  destruct (os_stat p w) as [[[l n]|e] w']; simpl in H; subst; [done|].
  apply stat_failed_world.
Qed.








(** [os.mkdir] adds at most one directory and changes nothing else. *)
Lemma os_mkdir_extends (p : path) (w : world) :
  extends w (snd (os_mkdir p w)).
Proof.
  unfold os_mkdir.
  destruct (existsb has_nul p); [apply extends_refl|].
  destruct (PATH_MAX <=? _)%nat; [apply extends_refl|].
  destruct p as [|c up]; [apply extends_refl|].
  destruct (is_anchor (c :: up)); [apply extends_refl|].
  destruct (resolve _ _ up) as [e|[d [|]]]; try apply extends_refl.
  destruct (bool_decide (c = ".."%string)); [apply extends_refl|].
  destruct (NAME_MAX <? String.length c)%nat; [apply extends_refl|].
  destruct (stat (w_fs w) (c :: d)) as [n|] eqn:Hn; [apply extends_refl|].
  split; [done|]. simpl. intros l n Hl. by apply stat_insert_keeps.
Qed.

Lemma mkdir_oserror_extends (exist_ok : bool) (p : path) (e : exn)
    (w : world) :
  snd (mkdir_oserror exist_ok p e w) = w.
Proof.
  unfold mkdir_oserror. destruct exist_ok; [|done]. run_M.
  pose proof (path_is_dir_world p w) as H.
  destruct (path_is_dir p w) as [[[|]|e'] w']; simpl in H; by subst.
Qed.

Lemma mkdir_single_extends (frames : nat) (exist_ok : bool) (p : path)
    (w : world) :
  extends w (snd (mkdir_single frames exist_ok p w)).
Proof.
  unfold mkdir_single. destruct frames as [|f]; [apply extends_refl|].
  pose proof (os_mkdir_extends p w) as H.
  destruct (os_mkdir p w) as [[[]|e] w']; simpl in H; [done|].
  destruct e; simpl; try done; by rewrite mkdir_oserror_extends.
Qed.

(** [Path.mkdir] adds entries to the tree and changes nothing else,
    whatever its outcome. *)
Lemma Path_mkdir_extends (p : path) :
  forall (frames : nat) (parents exist_ok : bool) (w : world),
    extends w (snd (Path_mkdir frames parents exist_ok p w)).
Proof.
  induction p as [|c up IH]; intros frames parents exist_ok w.
  - cbn [Path_mkdir]. destruct frames as [|f]; [apply extends_refl|].
    pose proof (os_mkdir_extends [] w) as H.
    destruct (os_mkdir [] w) as [[[]|e] w']; simpl in H; [done|].
    destruct e; simpl; try done; by rewrite mkdir_oserror_extends.
  - cbn [Path_mkdir]. destruct frames as [|f]; [apply extends_refl|].
    pose proof (os_mkdir_extends (c :: up) w) as H.
    destruct (os_mkdir (c :: up) w) as [[[]|e] w']; simpl in H; [done|].
    destruct e; simpl; try done; try (by rewrite mkdir_oserror_extends).
    destruct (negb parents || _); [done|].
    pose proof (IH f true true w') as H1.
    destruct (Path_mkdir f true true up w') as [[[]|e] w1]; simpl in H1.
    + eapply extends_trans; [exact H|]. eapply extends_trans; [exact H1|].
      apply mkdir_single_extends.
    + by eapply extends_trans.
Qed.






End PathFacts.

(** ** The prompt assembler *)

Section PromptFacts.
Context {RG : RandomGen}.

(** C1: with [k = 0], whatever the format instructions, [setup_prompt]
    returns a template of exactly two message slots, the system message
    followed by the final human instruction, and no few-shot block. *)
Theorem setup_prompt_zero_shot (exs : list Example)
    (format_instructions few_shot_by : string)
    (embeddings_cache_name : option string) (w : world) :
  exists prompt,
    setup_prompt exs format_instructions few_shot_by 0 embeddings_cache_name w
      = (Ok prompt, w) /\
    messages prompt = [SystemMessagePromptTemplate CHAT_SYSTEM_MESSAGE;
                       HumanMessagePromptTemplate SUFFIX] /\
    length (messages prompt) = 2%nat /\
    existsb is_few_shot (messages prompt) = false /\
    input_variables prompt = ["intention"%string] /\
    partial_variables prompt =
      [("format_instructions"%string, format_instructions)].
Proof.
  exists (two_slot_prompt format_instructions). by split_and!.
Qed.

(** C2: with [k > 0] and no example, [setup_prompt] fails on its
    assertion and returns no template. *)
Theorem setup_prompt_needs_examples (format_instructions few_shot_by : string)
    (k : Z) (embeddings_cache_name : option string) (w : world) :
  0 < k ->
  setup_prompt [] format_instructions few_shot_by k embeddings_cache_name w
    = (Raise (AssertionError None), w).
Proof.
  intros Hk. unfold setup_prompt, setup_prompt_with.
  replace (0 <? k) with true by lia. reflexivity.
Qed.

(** C9: for every [k <= 0], negative ones included, [setup_prompt]
    returns the two-slot template, also for an empty example list: the
    assertion on the examples is not evaluated, and the result is the
    same whatever the example-selection dispatch would do, which is
    therefore not invoked. *)
Theorem setup_prompt_nonpositive_k
    (dispatch : list (dict (option string)) -> string -> Z -> option string ->
                M (dict (kwarg ChatPromptTemplate (dict (option string)))))
    (exs : list Example) (format_instructions few_shot_by : string)
    (k : Z) (embeddings_cache_name : option string) (w : world) :
  k <= 0 ->
  setup_prompt_with dispatch exs format_instructions few_shot_by k
      embeddings_cache_name w
    = (Ok (two_slot_prompt format_instructions), w) /\
  setup_prompt [] format_instructions few_shot_by k embeddings_cache_name w
    = (Ok (two_slot_prompt format_instructions), w) /\
  existsb is_few_shot (messages (two_slot_prompt format_instructions)) = false.
Proof.
  intros Hk. unfold setup_prompt, setup_prompt_with.
  replace (0 <? k) with false by lia. by split_and!.
Qed.

End PromptFacts.

(** ** The example-selection dispatch *)

Section DispatchFacts.
Context {RG : RandomGen}.

(** C3: with the similarity strategy and no cache path the dispatch
    fails on its assertion, for every example list and every [k], and
    the world is the one it started from: the trace has no new event, so
    no embedding provider was built and nothing was embedded. *)
Theorem similarity_requires_cache_path {P A : Type} (exs : list A) (k : Z)
    (w : world) :
  setup_examples_or_its_selector (P := P) exs "similarity" k None w
    = (Raise (AssertionError (Some
         "embeddings_cache_name is required for retrieval based on sentence similarity between the extracted embeddings."%string)),
       w) /\
  w_trace (snd (setup_examples_or_its_selector (P := P) exs "similarity" k None w))
    = w_trace w.
Proof. by split. Qed.

(** C7: a strategy that is none of the three known ones makes the
    dispatch fail at once with "not implemented"; the world is
    untouched and neither a selector nor a list is returned. *)
Theorem unknown_strategy_not_implemented {P A : Type} (exs : list A)
    (few_shot_by : string) (k : Z) (embeddings_cache_name : option string)
    (w : world) :
  few_shot_by <> "similarity"%string ->
  few_shot_by <> "random"%string ->
  few_shot_by <> "fixed"%string ->
  setup_examples_or_its_selector (P := P) exs few_shot_by k
      embeddings_cache_name w
    = (Raise (NotImplementedError None), w).
Proof.
  intros H1 H2 H3. unfold setup_examples_or_its_selector.
  by rewrite !bool_decide_eq_false_2.
Qed.

(** C4, amended: the random strategy returns a selector that stores the
    example list and [k].  Every call of its [select_examples] with
    [0 <= k <= n] returns [k] elements, the stored elements at [k]
    pairwise different positions (so without repetition when the list
    has none), and moves only the generator: the positions are the ones
    the draws of the generator select, by the pool loop or by the loop
    over the set of selected positions, whichever [random.sample] runs
    for [n] and [k] (stated for [k] below [2 ^ 48], where the exponent
    of [setsize] is the one the library computes in floating point).
    With [k > n], and with a negative [k], the call
    raises the [ValueError] of [random.sample].  The sample is uniform
    in this sense: with the pool loop every ordered choice of [k]
    different positions is selected by exactly one sequence of in-range
    draws; the loop over the set selects every such choice for some
    draws, and renaming the positions in the draws renames them in the
    selection. *)
Theorem random_selector_samples {P A Q : Type} (exs : list A) (k : Z)
    (embeddings_cache_name : option string) (w : world) :
  let sel := {| examples := exs; k := k |} in
  let n := length exs in
  setup_examples_or_its_selector (P := P) exs "random" k
      embeddings_cache_name w
    = (Ok [("example_selector"%string, KwExampleSelector (Random sel))], w) /\
  (forall (args : list Q) (kwargs : dict Q) (w1 : world),
     (0 <= k <= Z.of_nat n ->
      exists r positions s',
        select_examples sel args kwargs w1 = (Ok r, with_rng w1 s') /\
        Z.of_nat (length r) = k /\
        NoDup positions /\
        Forall2 (fun i x => exs !! i = Some x) positions r /\
        (k < 2 ^ 48 -> selects n (Z.to_nat k) (w_rng w1) s' positions) /\
        (forall x, x ∈ r -> x ∈ exs) /\
        (NoDup exs -> NoDup r)) /\
     (k < 0 \/ Z.of_nat n < k ->
      select_examples sel args kwargs w1
        = (Raise (ValueError "Sample larger than population or is negative"),
           w1))) /\
  (forall positions : list nat,
     NoDup positions -> Z.of_nat (length positions) = k ->
     (forall p, p ∈ positions -> (p < n)%nat) ->
     (exists draws,
        in_range (pool_bounds n 0 (Z.to_nat k)) draws /\
        pool_selects n draws positions /\
        forall draws',
          in_range (pool_bounds n 0 (Z.to_nat k)) draws' ->
          pool_selects n draws' positions -> draws' = draws) /\
     set_selects (Z.to_nat k) positions positions /\
     forall (f : nat -> nat) (draws : list nat),
       Inj (=) (=) f ->
       set_selects (Z.to_nat k) draws positions ->
       set_selects (Z.to_nat k) (f <$> draws) (f <$> positions)).
Proof.
  intros sel n. split_and!; [done | |].
  - intros args kwargs w1. split.
    + intros Hk. unfold select_examples. simpl.
      destruct (random_sample_selects exs k w1 Hk)
        as (r & positions & s' & Hrun & Hlen & Hnd & Hat & Hsel).
      pose proof (positions_submseteq _ _ _ Hnd Hat) as Hsub.
      exists r, positions, s'. split_and!; try done.
      * intros x Hx. by eapply elem_of_submseteq.
      * by apply submseteq_keeps_NoDup.
    + intros Hk. unfold select_examples. simpl. by apply random_sample_error.
  - intros positions Hnd Hlen Hlt. split_and!.
    + apply every_selection_once; [done | lia | done].
    + replace (Z.to_nat k) with (length positions) by lia.
      by apply set_selects_self.
    + intros f draws Hf Hsel. by apply set_selects_renamed.
Qed.

(** The fixed strategy is [random.sample] with its result stored under
    the key [examples]. *)
Lemma dispatch_fixed_run {P A : Type} (exs : list A) (k : Z)
    (embeddings_cache_name : option string) (w : world) :
  setup_examples_or_its_selector (P := P) exs "fixed" k
      embeddings_cache_name w =
  match random_sample exs k w with
  | (Ok r, w') => (Ok [("examples"%string, KwExamples r)], w')
  | (Raise e, w') => (Raise e, w')
  end.
Proof.
  unfold setup_examples_or_its_selector. run_M.
  by destruct (random_sample exs k w) as [[r|e] w'].
Qed.

(** C5: the fixed strategy samples once, when the dispatch runs: it
    returns exactly when [0 <= k <= n], and then it has called
    [random.sample] on the generator of the world, which is left where
    that call leaves it, and returns what the call returned as a plain
    list, not a selector: [k] elements taken from the pairwise
    different positions the draws of the generator select (for [k]
    below [2 ^ 48], as in C4), without repetition when the input has
    none.  The result depends on the
    world through the generator state only, so two calls from the same
    state return the same list; and every later rendering shows the
    list unchanged, whatever the query and the generator state. *)
Theorem fixed_strategy_samples_once {P A : Type} (exs : list A) (k : Z)
    (embeddings_cache_name : option string) (w : world) :
  let run :=
    setup_examples_or_its_selector (P := P) exs "fixed" k
      embeddings_cache_name w in
  (forall (w2 : world) (cache2 : option string),
     w_rng w2 = w_rng w ->
     fst (setup_examples_or_its_selector (P := P) exs "fixed" k cache2 w2)
       = fst run) /\
  (is_ok (fst run) = true <-> 0 <= k <= Z.of_nat (length exs)) /\
  (0 <= k <= Z.of_nat (length exs) ->
   exists sample positions s',
     run = (Ok [("examples"%string, KwExamples sample)], with_rng w s') /\
     random_sample exs k w = (Ok sample, with_rng w s') /\
     Z.of_nat (length sample) = k /\
     NoDup positions /\
     Forall2 (fun i x => exs !! i = Some x) positions sample /\
     (k < 2 ^ 48 ->
      selects (length exs) (Z.to_nat k) (w_rng w) s' positions) /\
     (forall x, x ∈ sample -> x ∈ exs) /\
     (NoDup exs -> NoDup sample) /\
     forall (Q : Type) search (query : dict Q) (w1 : world),
       rendered_examples (P := P) search
           [("examples"%string, KwExamples sample)] query w1
         = (Ok sample, w1)).
Proof.
  intros run. unfold run. split_and!.
  - intros w2 cache2 Hs. rewrite !dispatch_fixed_run.
    destruct (random_sample_rng_only exs k w2 w Hs) as [Hfst _].
    destruct (random_sample exs k w2) as [[r2|e2] w2'],
             (random_sample exs k w) as [[r|e] w']; simpl in *; congruence.
  - rewrite dispatch_fixed_run.
    destruct (decide (0 <= k <= Z.of_nat (length exs))) as [Hk|Hk].
    + destruct (random_sample_ok exs k w Hk) as (r & s' & -> & _). done.
    + rewrite random_sample_error by lia. simpl. split; [done | lia].
  - intros Hk. rewrite dispatch_fixed_run.
    destruct (random_sample_selects exs k w Hk)
      as (r & positions & s' & Hrun & Hlen & Hnd & Hat & Hsel).
    pose proof (positions_submseteq _ _ _ Hnd Hat) as Hsub.
    rewrite Hrun. exists r, positions, s'. split_and!; try done.
    + intros x Hx. by eapply elem_of_submseteq.
    + by apply submseteq_keeps_NoDup.
Qed.

(** C10: [select_examples] of the random selector does not look at its
    arguments: with the same selector and the same world, calls with
    different positional and keyword arguments, or with none, give the
    same result, the one of [random.sample] on the stored list; so does
    the rendering of a few-shot block built on the selector. *)
Theorem select_examples_ignores_query {P A Q Q' : Type}
    (sel : RandomExampleSelector A)
    (args : list Q) (kwargs : dict Q) (args' : list Q') (kwargs' : dict Q')
    (w : world) :
  select_examples sel args kwargs w = select_examples sel args' kwargs' w /\
  select_examples sel args kwargs w
    = select_examples sel ([] : list Q) ([] : dict Q) w /\
  select_examples sel args kwargs w = random_sample (examples sel) (k sel) w /\
  forall search search',
    rendered_examples (P := P) search
        [("example_selector"%string, KwExampleSelector (Random sel))] kwargs w
      = rendered_examples (P := P) search'
          [("example_selector"%string, KwExampleSelector (Random sel))]
          kwargs' w.
Proof. by split_and!. Qed.

End DispatchFacts.

(** ** The model factory *)

Section ModelFacts.
Context {RG : RandomGen}.

(** C6: [setup_model] takes the branch of the first argument that is
    not [None], in the order local model, hosted repository, hosted
    deployment, whatever the later arguments are; with all three [None]
    it raises "not implemented". *)
Theorem setup_model_priority (w : world) :
  (forall m repo_id azure,
     setup_model (Some m) repo_id azure w
       = (Ok (HuggingFacePipeline m "text-generation" 64), w)) /\
  (forall r azure,
     setup_model None (Some r) azure w
       = (Ok (HuggingFaceHub r
                [("temperature"%string, 0); ("max_length"%string, 64)]), w)) /\
  (forall a,
     setup_model None None (Some a) w
       = (Ok (AzureChatOpenAI a a (w_env w !! "AZURE_OPENAI_API_VERSION"%string)),
          w)) /\
  setup_model None None None w
    = (Raise (NotImplementedError (Some "No model is specified."%string)), w).
Proof. by split_and!. Qed.

End ModelFacts.

(** ** The embedding provider *)

Section EmbeddingFacts.
Context {RG : RandomGen}.

(** [initialize_embeddings] with a cache path, step by step; [w0] is
    the world after the two events of the trace. *)
Lemma initialize_embeddings_run (name : string) (w : world) :
  let embedder :=
    CacheBackedEmbeddings HuggingFaceEmbeddings name "hfemb_default" in
  let w0 := with_trace w (w_trace w ++ cache_events name) in
  initialize_embeddings (Some name) w =
  match fst (path_exists (Path name) w0) with
  | Raise e => (Raise e, w0)
  | Ok true => (Ok embedder, w0)
  | Ok false =>
      match fst (path_exists (parent (Path name)) w0) with
      | Raise e => (Raise e, w0)
      | Ok true => (Ok embedder, w0)
      | Ok false =>
          match Path_mkdir (w_frames w) true true (parent (Path name)) w0 with
          | (Ok _, w') => (Ok embedder, w')
          | (Raise e, w') => (Raise e, w')
          end
      end
  end.
Proof.
  intros embedder w0.
  assert (Hw0 : with_trace
                  (with_trace w (w_trace w ++ [EvHuggingFaceEmbeddings]))
                  ((w_trace w ++ [EvHuggingFaceEmbeddings]) ++
                   [EvLog "Use {embeddings_cache_name=} for embeddings cache."
                      [name]]) = w0).
  { unfold w0, with_trace, cache_events. simpl. by rewrite <- app_assoc. }
  unfold initialize_embeddings, stack_room.
  unfold mbind, M_bind, bind, mret, M_ret, ret, emit.
  cbn [with_trace w_trace]. rewrite Hw0.
  pose proof (path_exists_world (Path name) w0) as H1.
  destruct (path_exists (Path name) w0) as [[[|]|e] w1]; simpl in H1; subst w1;
    [done | | done].
  cbn [negb fst].
  pose proof (path_exists_world (parent (Path name)) w0) as H2.
  destruct (path_exists (parent (Path name)) w0) as [[[|]|e] w2];
    simpl in H2; subst w2; [done | | done].
  cbn [negb fst].
  replace (w_frames w0) with (w_frames w) by done.
  by destruct (Path_mkdir _ _ _ _ w0) as [[[]|e] w'].
Qed.





End EmbeddingFacts.

(** * The properties on concrete inputs *)

Example Path_parts :
  Path "/var//cache/./emb/store/" =
    ["store"; "emb"; "cache"; "var"; "/"]%string /\
  Path "emb/../store" = ["store"; ".."; "emb"]%string /\
  parent (Path "store") = [] /\
  parent (Path "/") = ["/"%string] /\
  path_string (Path "/var//cache/./emb/store/") = "/var/cache/emb/store"%string /\
  target ["work"%string] (Path "emb/../store") = ["store"; "work"]%string.
Proof. by vm_compute. Qed.

(** Three of five elements are sampled by the pool loop, with draws
    below 5, 4 and 3; three of thirty by the loop over the set, with
    draws below 30, of which the second and the fourth repeat the one
    before and are drawn again. *)
Example sample_three_of_five :
  fst (random_sample [1; 2; 3; 4; 5] 3 demo_world) = Ok [4; 1; 2] /\
  draw_seq (pool_bounds 5 0 3) (w_rng demo_world) = ([3; 0; 1]%nat, 10%nat) /\
  pool_selects 5 [3; 0; 1]%nat [3; 0; 1]%nat /\
  @random_sample counter nat (seq 0 30) 3 (@World counter 58%nat ∅ ∅ [] [] 0)
    = (Ok [29; 0; 1]%nat, @World counter 63%nat ∅ ∅ [] [] 0) /\
  draw_seq (replicate 5 30%nat) (58%nat : @rng_state counter)
    = ([29; 29; 0; 0; 1]%nat, 63%nat) /\
  first_seen ∅ [29; 29; 0; 0; 1]%nat = [29; 0; 1]%nat.
Proof. by vm_compute. Qed.

Example similarity_with_cache_path :
  let run :=
    setup_examples_or_its_selector (P := unit) (map example_dict demo_examples)
      "similarity" 2 (Some "cache/emb"%string) demo_world in
  is_ok (fst run) = true /\
  stat (w_fs (snd run)) ["cache"; "work"]%string = Some Dir.
Proof. by vm_compute. Qed.



Lemma setup_prompt_needs_examples_witness :
  0 < 2 /\
  setup_prompt [] "as JSON" "random" 2 None demo_world
    = (Raise (AssertionError None), demo_world).
Proof.
  split; [lia|]. apply (@setup_prompt_needs_examples counter). lia.
Defined.

Lemma setup_prompt_nonpositive_k_witness :
  -3 <= 0 /\
  setup_prompt_with (fun _ _ _ _ => raise (NotImplementedError None))
      demo_examples "as JSON" "no such strategy" (-3) None demo_world
    = (Ok (two_slot_prompt "as JSON"), demo_world).
Proof.
  split; [lia|].
  apply (@setup_prompt_nonpositive_k counter
           (fun _ _ _ _ => raise (NotImplementedError None))
           demo_examples "as JSON" "no such strategy" (-3) None demo_world).
  lia.
Defined.

Lemma unknown_strategy_not_implemented_witness :
  "nearest"%string <> "similarity"%string /\
  "nearest"%string <> "random"%string /\
  "nearest"%string <> "fixed"%string /\
  setup_examples_or_its_selector (P := unit) demo_examples "nearest" 2 None
      demo_world
    = (Raise (NotImplementedError None), demo_world).
Proof.
  split_and!; try discriminate.
  apply (@unknown_strategy_not_implemented counter unit Example demo_examples
           "nearest" 2 None demo_world); discriminate.
Defined.

Lemma random_selector_samples_witness :
  0 <= 2 <= Z.of_nat (length demo_examples) /\
  exists r positions s',
    select_examples {| examples := demo_examples; k := 2 |}
        ([] : list string) [] demo_world
      = (Ok r, with_rng demo_world s') /\
    Z.of_nat (length r) = 2 /\
    NoDup positions /\
    Forall2 (fun i x => demo_examples !! i = Some x) positions r /\
    selects (length demo_examples) 2 (w_rng demo_world) s' positions.
Proof.
  assert (Hk : 0 <= 2 <= Z.of_nat (length demo_examples)) by (simpl; lia).
  split; [exact Hk|].
  destruct (@random_selector_samples counter unit Example string demo_examples
              2 None demo_world) as (_ & Hsel & _).
  destruct (Hsel [] [] demo_world) as [Hin _].
  destruct (Hin Hk) as (r & positions & s' & Hrun & Hlen & Hnd & Hat & Hdraws
                        & _).
  exists r, positions, s'. split_and!; [done | done | done | done |].
  apply Hdraws. done.
Defined.

Lemma fixed_strategy_samples_once_witness :
  0 <= 2 <= Z.of_nat (length demo_examples) /\
  exists sample positions s',
    setup_examples_or_its_selector (P := unit) demo_examples "fixed" 2
        None demo_world
      = (Ok [("examples"%string, KwExamples sample)], with_rng demo_world s') /\
    Z.of_nat (length sample) = 2 /\
    Forall2 (fun i x => demo_examples !! i = Some x) positions sample /\
    selects (length demo_examples) 2 (w_rng demo_world) s' positions.
Proof.
  assert (Hk : 0 <= 2 <= Z.of_nat (length demo_examples)) by (simpl; lia).
  split; [exact Hk|].
  destruct (@fixed_strategy_samples_once counter unit Example demo_examples 2
              None demo_world) as (_ & _ & Hres).
  destruct (Hres Hk) as (sample & positions & s' & Hrun & _ & Hlen & _ & Hat
                         & Hdraws & _).
  exists sample, positions, s'. split_and!; [done | done | done |].
  apply Hdraws. done.
Defined.


(** The random selector with a negative [k]: [-1 <= 1], and yet the
    sampling call raises instead of returning [k] elements. *)
Lemma random_selector_negative_k :
  let sel := {| examples := ["a"%string]; k := -1 |} in
  setup_examples_or_its_selector (P := unit) ["a"%string] "random" (-1) None
      demo_world
    = (Ok [("example_selector"%string, KwExampleSelector (Random sel))],
       demo_world) /\
  k sel <= Z.of_nat (length (examples sel)) /\
  select_examples sel ([] : list string) [] demo_world
    = (Raise (ValueError "Sample larger than population or is negative"),
       demo_world) /\
  ~ (exists r w', select_examples sel ([] : list string) [] demo_world
                  = (Ok r, w')).
Proof.
  split_and!; [done | simpl; lia | done |].
  intros (r & w' & H). discriminate H.
Qed.


(** * Further properties of the module *)

(** ** More on the embedding provider *)

Section MoreEmbeddingFacts.
Context {RG : RandomGen}.

(** Whatever its outcome, [initialize_embeddings] with a cache path
    leaves a world that extends the one after its two events. *)
Lemma initialize_embeddings_extends (name : string) (w : world) :
  extends (with_trace w (w_trace w ++ cache_events name))
    (snd (initialize_embeddings (Some name) w)).
Proof.
  rewrite initialize_embeddings_run.
  set (w0 := with_trace w (w_trace w ++ cache_events name)).
  destruct (fst (path_exists (Path name) w0)) as [[|]|e];
    try apply extends_refl.
  destruct (fst (path_exists (parent (Path name)) w0)) as [[|]|e];
    try apply extends_refl.
  pose proof (Path_mkdir_extends (parent (Path name)) (w_frames w) true true w0)
    as H.
  by destruct (Path_mkdir _ _ _ _ w0) as [[[]|e] w'].
Qed.

(** [initialize_embeddings] keeps the generator, the environment and
    every entry of the tree, and only appends to the trace. *)
Lemma initialize_embeddings_keeps (embeddings_cache_name : option string)
    (w : world) :
  let w' := snd (initialize_embeddings embeddings_cache_name w) in
  w_rng w' = w_rng w /\
  w_env w' = w_env w /\
  (forall l n, stat (w_fs w) l = Some n -> stat (w_fs w') l = Some n) /\
  w_trace w `prefix_of` w_trace w'.
Proof.
  destruct embeddings_cache_name as [name|].
  - intros w'. destruct (initialize_embeddings_extends name w) as [Hw' Hkeep].
    fold w' in Hw', Hkeep. rewrite Hw'.
    split_and!; [done | done | exact Hkeep | by apply prefix_app_r].
  - simpl. split_and!; [done | done | done | by apply prefix_app_r].
Qed.

(** What [initialize_embeddings] returns for a cache path is the cached
    embedder. *)
Lemma initialize_embeddings_returns (name : string) (w w' : world)
    (embedder : Embeddings) :
  initialize_embeddings (Some name) w = (Ok embedder, w') ->
  embedder = CacheBackedEmbeddings HuggingFaceEmbeddings name "hfemb_default".
Proof.
  rewrite initialize_embeddings_run.
  destruct (fst (path_exists (Path name) _)) as [[|]|e]; try congruence.
  destruct (fst (path_exists (parent (Path name)) _)) as [[|]|e];
    try congruence.
  destruct (Path_mkdir _ _ _ _ _) as [[[]|e] w1]; congruence.
Qed.









End MoreEmbeddingFacts.

(** ** More on the example-selection dispatch *)

Section MoreDispatchFacts.
Context {RG : RandomGen}.

(** Every run of the dispatch is one of the eight outcomes. *)
Lemma dispatch_spec {P A : Type} (exs : list A) (few_shot_by : string)
    (k : Z) (embeddings_cache_name : option string) (w : world) :
  dispatch_outcome (P := P) exs k w few_shot_by embeddings_cache_name
    (setup_examples_or_its_selector exs few_shot_by k embeddings_cache_name w).
Proof.
  destruct (decide (few_shot_by = "similarity"%string)) as [->|H1].
  { destruct embeddings_cache_name as [name|]; [|constructor].
    set (w0 := with_trace w (w_trace w ++ [similarity_started])).
    assert (Hrun :
      setup_examples_or_its_selector (P := P) exs "similarity" k (Some name) w =
      match initialize_embeddings (Some name) w0 with
      | (Ok embeddings, w1) =>
          match exs with
          | [] =>
              (Raise IndexError,
               with_trace w1 (w_trace w1 ++ [EvEmbedDocuments 0]))
          | _ =>
              (Ok [("example_selector"%string,
                    KwExampleSelector
                      (SemanticSimilarity exs embeddings k
                         ["intention"%string]))],
               with_trace w1
                 (w_trace w1 ++
                  [EvEmbedDocuments (length exs); similarity_finished]))
          end
      | (Raise e, w1) => (Raise e, w1)
      end).
    { unfold setup_examples_or_its_selector, from_examples. run_M.
      fold similarity_started. fold w0.
      destruct (initialize_embeddings (Some name) w0) as [[emb|e] w1]; [|done].
      destruct exs as [|x exs']; [done|]. simpl.
      unfold with_trace. simpl. by rewrite <- app_assoc. }
    rewrite Hrun. clear Hrun.
    destruct (initialize_embeddings (Some name) w0) as [[emb|e] w1] eqn:Hinit.
    - destruct exs as [|x exs'] eqn:Hexs.
      + by eapply similarity_unindexed.
      + pose proof (initialize_embeddings_returns _ _ _ _ Hinit) as ->.
        by apply similarity_indexed.
    - by apply similarity_blocked. }
  unfold setup_examples_or_its_selector.
  rewrite (bool_decide_eq_false_2 _ H1).
  destruct (decide (few_shot_by = "random"%string)) as [->|H2];
    [constructor|].
  rewrite (bool_decide_eq_false_2 _ H2).
  destruct (decide (few_shot_by = "fixed"%string)) as [->|H3];
    [|rewrite (bool_decide_eq_false_2 _ H3); by constructor].
  rewrite bool_decide_eq_true_2 by done. run_M.
  destruct (decide (0 <= k <= Z.of_nat (length exs))) as [Hk|Hk].
  - destruct (random_sample_ok exs k w Hk) as (r & s' & -> & Hlen & Hsub).
    by apply fixed_sampled.
  - rewrite random_sample_error by lia. apply fixed_out_of_range. lia.
Qed.

(** X5: what the dispatch leaves alone.  It never touches the
    environment; only the fixed strategy moves the generator; only the
    similarity strategy touches the tree and the trace, and then it
    keeps every entry of the tree and only appends to the trace. *)
Theorem dispatch_frame {P A : Type} (exs : list A) (few_shot_by : string)
    (k : Z) (embeddings_cache_name : option string) (w : world) :
  let w' :=
    snd (setup_examples_or_its_selector (P := P) exs few_shot_by k
           embeddings_cache_name w) in
  w_env w' = w_env w /\
  (few_shot_by <> "fixed"%string -> w_rng w' = w_rng w) /\
  (few_shot_by <> "similarity"%string ->
   w_fs w' = w_fs w /\ w_trace w' = w_trace w) /\
  (forall q n, stat (w_fs w) q = Some n -> stat (w_fs w') q = Some n) /\
  w_trace w `prefix_of` w_trace w'.
Proof.
  assert (Hsim : forall name r w1,
    initialize_embeddings (Some name)
        (with_trace w (w_trace w ++ [similarity_started])) = (r, w1) ->
    w_env w1 = w_env w /\ w_rng w1 = w_rng w /\
    (forall q n, stat (w_fs w) q = Some n -> stat (w_fs w1) q = Some n) /\
    w_trace w `prefix_of` w_trace w1).
  { intros name r w1 Hinit.
    pose proof (initialize_embeddings_keeps (Some name)
                  (with_trace w (w_trace w ++ [similarity_started])))
      as (Hrng & Henv & Hkeep & Hpre).
    rewrite Hinit in Hrng, Henv, Hkeep, Hpre. simpl in *.
    split_and!; [done | done | done |].
    etrans; [|exact Hpre]. by apply prefix_app_r. }
  destruct (dispatch_spec (P := P) exs few_shot_by k embeddings_cache_name w)
    as [|name w1 Hinit Hexs|name emb w1 Hinit Hexs|name e w1 Hinit|cache
        |cache r s' Hk Hlen Hsub|cache Hk|fsb cache H1 H2 H3];
    simpl; try (split_and!; try done; by apply prefix_app_r).
  - destruct (Hsim _ _ _ Hinit) as (Henv & Hrng & Hkeep & Hpre).
    split_and!; try done. etrans; [exact Hpre|]. by apply prefix_app_r.
  - destruct (Hsim _ _ _ Hinit) as (Henv & Hrng & Hkeep & Hpre).
    split_and!; try done. etrans; [exact Hpre|]. by apply prefix_app_r.
  - destruct (Hsim _ _ _ Hinit) as (Henv & Hrng & Hkeep & Hpre).
    by split_and!.
Qed.

(** X7: the bounds of the fixed strategy.  With [k = 0] it returns the
    empty list and leaves the world, the generator included, as it was;
    with [k] the number of examples it returns all of them, in some
    order. *)
Theorem fixed_strategy_bounds {P A : Type} (exs : list A)
    (embeddings_cache_name : option string) (w : world) :
  setup_examples_or_its_selector (P := P) exs "fixed" 0
      embeddings_cache_name w
    = (Ok [("examples"%string, KwExamples [])], w) /\
  exists sample s',
    setup_examples_or_its_selector (P := P) exs "fixed"
        (Z.of_nat (length exs)) embeddings_cache_name w
      = (Ok [("examples"%string, KwExamples sample)], with_rng w s') /\
    sample ≡ₚ exs.
Proof.
  split.
  - rewrite dispatch_fixed_run. unfold random_sample.
    rewrite (proj2 (Z.leb_le 0 (Z.of_nat (length exs)))) by lia. simpl.
    destruct (Z.of_nat (length exs) <=? setsize 0); by destruct w.
  - rewrite dispatch_fixed_run.
    destruct (random_sample_ok exs (Z.of_nat (length exs)) w ltac:(lia))
      as (r & s' & -> & Hlen & Hsub).
    exists r, s'. split; [done|].
    apply submseteq_length_Permutation; [done | lia].
Qed.

(** X8: [add_example] extends what the selector samples from.  A
    selector whose [k] is one more than its number of examples raises
    on every call; after one [add_example] every call returns, and what
    it returns are the stored examples and the new one, in some
    order. *)
Theorem add_example_extends_population {A Q : Type}
    (sel : RandomExampleSelector A) (example : A)
    (args : list Q) (kwargs : dict Q) (w : world) :
  k sel = Z.of_nat (length (examples sel)) + 1 ->
  select_examples sel args kwargs w
    = (Raise (ValueError sample_range_message), w) /\
  k (add_example sel example) = k sel /\
  exists r s',
    select_examples (add_example sel example) args kwargs w
      = (Ok r, with_rng w s') /\
    r ≡ₚ examples sel ++ [example].
Proof.
  intros Hk. split_and!; [| done |].
  - unfold select_examples. rewrite random_sample_error by lia. done.
  - unfold select_examples, add_example. simpl.
    destruct (random_sample_ok (examples sel ++ [example]) (k sel) w)
      as (r & s' & Hrun & Hlen & Hsub).
    { rewrite length_app. simpl. lia. }
    exists r, s'. split; [done|].
    apply submseteq_length_Permutation; [done|].
    rewrite length_app. simpl. lia.
Qed.

(** The first rounds of the pool loop do not depend on how many rounds
    follow. *)
Lemma sample_loop_prefix {A} (n a b : nat) :
  forall (i : nat) (pool : list A) (s s' : rng_state) (r : list A),
    sample_loop n (a + b) i pool s = (Ok r, s') ->
    exists s'', sample_loop n a i pool s = (Ok (take a r), s'').
Proof.
  induction a as [|a IH]; intros i pool s s' r Hrun; [by eexists|].
  simpl in *. destruct (randbelow s (n - i)%nat) as [j s1].
  destruct (pool !! j) as [x|]; [|done].
  destruct (pool !! (n - i - 1)%nat) as [y|]; [|done].
  destruct (sample_loop n (a + b) (S i) (<[j:=y]> pool) s1)
    as [[r1|e] s2] eqn:Hrest; [|done].
  injection Hrun as <- <-.
  destruct (IH _ _ _ _ _ Hrest) as [s'' ->]. by eexists.
Qed.

(** X9: for at most 21 examples, where [random.sample] always runs the
    pool variant, the fixed samples taken from the same generator state
    are nested: the sample of size [k'] is the beginning of the sample
    of any larger size [k], so that raising [k] keeps the examples
    already chosen and adds new ones after them. *)
Theorem fixed_sample_prefix {P A : Type} (exs : list A) (k k' : Z)
    (embeddings_cache_name : option string) (w : world) :
  (length exs <= 21)%nat ->
  0 <= k' <= k -> k <= Z.of_nat (length exs) ->
  exists sample,
    fst (setup_examples_or_its_selector (P := P) exs "fixed" k
           embeddings_cache_name w)
      = Ok [("examples"%string, KwExamples sample)] /\
    fst (setup_examples_or_its_selector (P := P) exs "fixed" k'
           embeddings_cache_name w)
      = Ok [("examples"%string, KwExamples (take (Z.to_nat k') sample))].
Proof.
  intros Hsmall Hk' Hk. rewrite !dispatch_fixed_run. unfold random_sample.
  replace ((0 <=? k) && (k <=? Z.of_nat (length exs))) with true by lia.
  replace ((0 <=? k') && (k' <=? Z.of_nat (length exs))) with true by lia.
  pose proof (setsize_ge k). pose proof (setsize_ge k').
  rewrite (proj2 (Z.leb_le _ (setsize k))) by lia.
  rewrite (proj2 (Z.leb_le _ (setsize k'))) by lia.
  simpl.
  destruct (sample_loop_spec (length exs) (Z.to_nat k) 0 exs (w_rng w))
    as (r & draws & s' & Hrun & _); [done | lia |].
  replace (Z.to_nat k) with (Z.to_nat k' + (Z.to_nat k - Z.to_nat k'))%nat
    in Hrun by lia.
  destruct (sample_loop_prefix _ _ _ _ _ _ _ _ Hrun) as [s'' Hpre].
  replace (Z.to_nat k' + (Z.to_nat k - Z.to_nat k'))%nat with (Z.to_nat k)
    in Hrun by lia.
  rewrite Hrun, Hpre. by exists r.
Qed.

End MoreDispatchFacts.

(** ** More on the prompt assembler *)

Section MorePromptFacts.
Context {RG : RandomGen}.

(** With [k > 0] and at least one example, [setup_prompt] is the
    dispatch on the records of the examples, followed by the assembly
    of the three slots. *)
Lemma setup_prompt_few_shot_run (exs : list Example)
    (format_instructions few_shot_by : string) (k : Z)
    (embeddings_cache_name : option string) (w : world) :
  0 < k -> exs <> [] ->
  setup_prompt exs format_instructions few_shot_by k embeddings_cache_name w =
  match setup_examples_or_its_selector (map example_dict exs) few_shot_by k
          embeddings_cache_name w with
  | (Ok selected, w') =>
      (Ok (three_slot_prompt format_instructions
             (dict_update
                [("example_prompt"%string,
                  KwExamplePrompt example_prompt_template)]
                selected)),
       w')
  | (Raise e, w') => (Raise e, w')
  end.
Proof.
  intros Hk Hexs. unfold setup_prompt, setup_prompt_with.
  replace (0 <? k) with true by lia.
  destruct exs as [|e exs]; [done|]. run_M.
  by destruct (setup_examples_or_its_selector _ _ _ _ _) as [[sel|err] w'].
Qed.

Lemma same_content_records (exs exs' : list Example) :
  same_content exs exs' ->
  map example_dict exs = map example_dict exs' /\ length exs = length exs'.
Proof.
  induction 1 as [|e e' exs exs' [Hi Hd] _ [IHm IHl]]; [done|].
  simpl. unfold example_dict at 1 3. by rewrite Hi, Hd, IHm, IHl.
Qed.

(** X10: the identifiers of the examples play no part: two example
    lists with the same intentions and details give the same outcome,
    template or error, and the same world. *)
Theorem setup_prompt_ignores_ids (exs exs' : list Example)
    (format_instructions few_shot_by : string) (k : Z)
    (embeddings_cache_name : option string) (w : world) :
  same_content exs exs' ->
  setup_prompt exs format_instructions few_shot_by k embeddings_cache_name w
    = setup_prompt exs' format_instructions few_shot_by k
        embeddings_cache_name w.
Proof.
  intros Hsame. destruct (same_content_records _ _ Hsame) as [Hmap Hlen].
  unfold setup_prompt, setup_prompt_with. by rewrite Hmap, Hlen.
Qed.

(** X11: what a template with a few-shot block looks like.  Whenever
    [setup_prompt] returns with [k > 0], there was at least one example
    and the template has three slots: the system message, the few-shot
    block and the final human instruction.  The block holds the prompt
    of one example and one more entry: for the random strategy the
    selector on the records of all the examples, with the world left
    as it was; for the fixed strategy a list of [k] records taken from
    different examples; for the similarity strategy the selector built
    on the cached embedder. *)
Theorem setup_prompt_few_shot_shape (exs : list Example)
    (format_instructions few_shot_by : string) (k : Z)
    (embeddings_cache_name : option string) (w w' : world)
    (prompt : ChatPromptTemplate) :
  0 < k ->
  setup_prompt exs format_instructions few_shot_by k embeddings_cache_name w
    = (Ok prompt, w') ->
  exs <> [] /\
  exists entry,
    prompt =
      three_slot_prompt format_instructions
        [("example_prompt"%string, KwExamplePrompt example_prompt_template);
         entry] /\
    ((few_shot_by = "random"%string /\ w' = w /\
      entry = ("example_selector"%string,
               KwExampleSelector
                 (Random {| examples := map example_dict exs; k := k |}))) \/
     (few_shot_by = "fixed"%string /\
      exists sample,
        entry = ("examples"%string, KwExamples sample) /\
        Z.of_nat (length sample) = k /\
        sample ⊆+ map example_dict exs) \/
     (few_shot_by = "similarity"%string /\
      exists name,
        embeddings_cache_name = Some name /\
        entry = ("example_selector"%string,
                 KwExampleSelector
                   (SemanticSimilarity (map example_dict exs)
                      (CacheBackedEmbeddings HuggingFaceEmbeddings name
                         "hfemb_default")
                      k ["intention"%string])))).
Proof.
  intros Hk Hrun.
  assert (Hexs : exs <> []).
  { intros ->. unfold setup_prompt, setup_prompt_with in Hrun.
    replace (0 <? k) with true in Hrun by lia. discriminate Hrun. }
  split; [done|].
  rewrite setup_prompt_few_shot_run in Hrun by done.
  pose proof (dispatch_spec (P := ChatPromptTemplate) (map example_dict exs)
                few_shot_by k embeddings_cache_name w) as Hspec.
  destruct Hspec; try discriminate Hrun; injection Hrun as <- <-;
    eexists; (split; [reflexivity|]).
  - right. right. split; [done|]. by eexists.
  - left. by split_and!.
  - right. left. split; [done|]. by eexists.
Qed.

(** X12: with the fixed strategy [setup_prompt] returns exactly when
    [k] does not exceed the number of examples. *)
Theorem setup_prompt_fixed_succeeds_iff (exs : list Example)
    (format_instructions : string) (k : Z)
    (embeddings_cache_name : option string) (w : world) :
  is_ok (fst (setup_prompt exs format_instructions "fixed" k
                embeddings_cache_name w)) = true
  <-> k <= Z.of_nat (length exs).
Proof.
  destruct (decide (0 < k)) as [Hk|Hk].
  - destruct exs as [|e exs].
    + unfold setup_prompt, setup_prompt_with.
      replace (0 <? k) with true by lia. simpl. split; [done | lia].
    + rewrite setup_prompt_few_shot_run, dispatch_fixed_run by done.
      destruct (decide (k <= Z.of_nat (length (e :: exs)))) as [Hn|Hn].
      * destruct (random_sample_ok (map example_dict (e :: exs)) k w)
          as (r & s' & -> & _); [rewrite length_map; lia | done].
      * rewrite random_sample_error by (rewrite length_map; lia).
        done.
  - unfold setup_prompt, setup_prompt_with.
    replace (0 <? k) with false by lia. simpl. split; [lia | done].
Qed.

(** X13: the random strategy defers the sampling.  [setup_prompt] with
    it leaves the world, the generator included, as it was, and returns
    exactly when [k <= 0] or there is an example; it does not compare
    [k] with the number of examples.  When [k] exceeds that number the
    template is returned all the same, and every rendering of its
    few-shot block raises the [ValueError] of [random.sample]. *)
Theorem setup_prompt_random_defers_sampling (exs : list Example)
    (format_instructions : string) (k : Z)
    (embeddings_cache_name : option string) (w : world) :
  let run :=
    setup_prompt exs format_instructions "random" k embeddings_cache_name w in
  snd run = w /\
  (is_ok (fst run) = true <-> k <= 0 \/ exs <> []) /\
  (exs <> [] -> Z.of_nat (length exs) < k ->
   exists block,
     fst run = Ok (three_slot_prompt format_instructions block) /\
     forall (Q : Type) search (query : dict Q) (w1 : world),
       rendered_examples search block query w1
         = (Raise (ValueError sample_range_message), w1)).
Proof.
  intros run. unfold run.
  destruct (decide (0 < k)) as [Hk|Hk].
  - destruct exs as [|e exs].
    + unfold setup_prompt, setup_prompt_with.
      replace (0 <? k) with true by lia. simpl.
      split_and!; [done | | done]. split; [done|]. intros [?|?]; [lia | done].
    + rewrite setup_prompt_few_shot_run by done.
      unfold setup_examples_or_its_selector. run_M.
      split_and!; [done | split; [by right | done] |].
      intros _ Hn. eexists. split; [reflexivity|].
      intros Q search query w1.
      unfold rendered_examples, select_examples. simpl.
      rewrite random_sample_error; [done|].
      right. simpl. rewrite length_map. simpl in Hn. lia.
  - unfold setup_prompt, setup_prompt_with.
    replace (0 <? k) with false by lia. simpl.
    split_and!; [done | split; [left; lia | done] |].
    intros _ Hn. lia.
Qed.

End MorePromptFacts.

(** * The further properties on concrete inputs *)

(** A second call that raises: the first call creates the directory
    [x], in which the second one then looks for a name of 256 bytes. *)
Example second_call_raises :
  let name := ("x/" ++ long_name)%string in
  let first := initialize_embeddings (Some name) demo_world in
  is_ok (fst first) = true /\
  stat (w_fs (snd first)) ["x"; "work"]%string = Some Dir /\
  fst (initialize_embeddings (Some name) (snd first)) = Raise (OSError 36).
Proof. by vm_compute. Qed.



Lemma add_example_extends_population_witness :
  let sel := {| examples := ["a"; "b"]%string; k := 3 |} in
  k sel = Z.of_nat (length (examples sel)) + 1 /\
  select_examples sel ([] : list string) [] demo_world
    = (Raise (ValueError sample_range_message), demo_world) /\
  exists r s',
    select_examples (add_example sel "c"%string) ([] : list string) []
        demo_world
      = (Ok r, with_rng demo_world s') /\
    r ≡ₚ ["a"; "b"; "c"]%string.
Proof.
  intros sel.
  assert (Hk : k sel = Z.of_nat (length (examples sel)) + 1) by reflexivity.
  split; [exact Hk|].
  destruct (@add_example_extends_population counter string string sel
              "c"%string [] [] demo_world Hk) as (Hbefore & _ & Hafter).
  by split.
Defined.

Lemma fixed_sample_prefix_witness :
  (length demo_examples <= 21)%nat /\
  0 <= 1 <= 2 /\ 2 <= Z.of_nat (length demo_examples) /\
  exists sample,
    fst (setup_examples_or_its_selector (P := unit) demo_examples "fixed" 2
           None demo_world)
      = Ok [("examples"%string, KwExamples sample)] /\
    fst (setup_examples_or_its_selector (P := unit) demo_examples "fixed" 1
           None demo_world)
      = Ok [("examples"%string, KwExamples (take 1 sample))].
Proof.
  assert (H1 : 0 <= 1 <= 2) by lia.
  assert (H2 : 2 <= Z.of_nat (length demo_examples)) by (simpl; lia).
  assert (H0 : (length demo_examples <= 21)%nat) by (simpl; lia).
  split; [exact H0|]. split; [exact H1|]. split; [exact H2|].
  exact (@fixed_sample_prefix counter unit Example demo_examples 2 1 None
           demo_world H0 H1 H2).
Defined.

Lemma setup_prompt_ignores_ids_witness :
  same_content demo_examples renumbered_examples /\
  setup_prompt demo_examples "as JSON" "fixed" 2 None demo_world
    = setup_prompt renumbered_examples "as JSON" "fixed" 2 None demo_world.
Proof.
  assert (Hsame : same_content demo_examples renumbered_examples)
    by (repeat constructor).
  split; [exact Hsame|].
  exact (@setup_prompt_ignores_ids counter _ _ "as JSON" "fixed" 2 None
           demo_world Hsame).
Defined.

Lemma setup_prompt_few_shot_shape_witness :
  0 < 2 /\
  exists prompt w' sample,
    setup_prompt demo_examples "as JSON" "fixed" 2 None demo_world
      = (Ok prompt, w') /\
    prompt =
      three_slot_prompt "as JSON"
        [("example_prompt"%string, KwExamplePrompt example_prompt_template);
         ("examples"%string, KwExamples sample)] /\
    Z.of_nat (length sample) = 2.
Proof.
  assert (Hk : 0 < 2) by lia.
  split; [exact Hk|].
  destruct (setup_prompt demo_examples "as JSON" "fixed" 2 None demo_world)
    as [[prompt|e] w'] eqn:Hrun; [|vm_compute in Hrun; discriminate Hrun].
  destruct (@setup_prompt_few_shot_shape counter _ _ _ _ _ _ _ _ Hk Hrun)
    as (_ & entry & -> & [(Hs & _)|[(_ & sample & -> & Hlen & _)|(Hs & _)]]);
    try discriminate Hs.
  eexists. exists w', sample. by split_and!.
Defined.
